(** * Dynamic QRIS payload composition: the checksum engine and the composer

    A shallow embedding of the two route files of the repository,
    [src/api/orderkouta/orderkuota.js] (functions [calculateCRC16],
    [createDynamicQRIS] and [generateTransactionId]) and its older twin
    (functions [convertCRC16], [createQRIS], [generateQRIS] and
    [generateTransactionId]), together with the JavaScript primitives they
    call.

    JavaScript strings are sequences of UTF-16 code units; a code unit is a
    natural number (below 65536 in a real string, a bound that no result
    below depends on).  Numbers that go through the bitwise operators are
    integers, wrapped to 32 signed bits the way [ToInt32] does it.  The
    composers are followed up to the string they pass to [QRCode.toBuffer];
    rendering, upload, transaction identifiers and expiry times are not
    part of the development. *)

From Stdlib Require Import String Ascii Bool ZArith NArith Lia List.
From Stdlib Require Strings.Byte.
Import ListNotations.

Local Open Scope Z_scope.

(** ** JavaScript primitives *)

Module JS.

Definition jsstring := list N.

(** A string literal of the source: its ASCII characters as code units. *)
Definition lit (s : string) : jsstring :=
  List.map N_of_ascii (list_ascii_of_string s).

Fixpoint eqb (s t : jsstring) : bool :=
  match s, t with
  | [], [] => true
  | c :: s', d :: t' => N.eqb c d && eqb s' t'
  | _, _ => false
  end.

(** [s.charCodeAt(i)] for an index inside the string, as the loops of the
    source only ever ask for. *)
Definition charCode (c : N) : Z := Z.of_N c.

(** *** Int32 arithmetic of the bitwise operators *)

Definition ToUint32 (z : Z) : Z := z mod 2 ^ 32.

Definition ToInt32 (z : Z) : Z :=
  let m := z mod 2 ^ 32 in
  if 2 ^ 31 <=? m then m - 2 ^ 32 else m.

(** [a << b] *)
Definition shl (a b : Z) : Z :=
  ToInt32 (Z.shiftl (ToInt32 a) (ToUint32 b mod 32)).

(** [a ^ b] *)
Definition xor (a b : Z) : Z := Z.lxor (ToInt32 a) (ToInt32 b).

(** [a & b] *)
Definition and (a b : Z) : Z := Z.land (ToInt32 a) (ToInt32 b).

(** Truthiness of a number that is not NaN: anything but zero. *)
Definition truthy (z : Z) : bool := negb (z =? 0).

(** *** [Number.prototype.toString(radix)] on integers *)

Definition digitChar (d : N) : N :=
  if (d <? 10)%N then (48 + d)%N else (97 + (d - 10))%N.

Fixpoint digitsFuel (fuel : nat) (radix n : N) (acc : jsstring) : jsstring :=
  match fuel with
  | O => acc
  | S fuel' =>
      let acc' := digitChar (n mod radix) :: acc in
      if (n / radix =? 0)%N then acc' else digitsFuel fuel' radix (n / radix) acc'
  end.

(** The digits of a natural number, most significant first, no leading
    zero; a number below [2 ^ k] has at most [k] digits in any radix
    from 2 up, so the fuel [S (log2 n)] never runs out. *)
Definition natToString (radix n : N) : jsstring :=
  digitsFuel (S (N.to_nat (N.log2 n))) radix n [].

Definition toString (radix : N) (z : Z) : jsstring :=
  if z <? 0 then 45%N :: natToString radix (Z.to_N (- z))
  else natToString radix (Z.to_N z).

(** [String.prototype.toUpperCase] on the Basic Latin block, where it maps
    [a-z] to [A-Z] and nothing else; the source applies it only to the
    output of [toString(16)]. *)
Definition upperChar (c : N) : N :=
  if ((97 <=? c) && (c <=? 122))%N then (c - 32)%N else c.

Definition toUpperCase (s : jsstring) : jsstring := List.map upperChar s.

(** *** [String.prototype.slice(start, end)] *)

Definition relIndex (len i : Z) : Z :=
  if i <? 0 then Z.max (len + i) 0 else Z.min i len.

Definition slice (s : jsstring) (start : Z) (end_ : option Z) : jsstring :=
  let len := Z.of_nat (length s) in
  let from := relIndex len start in
  let to := match end_ with None => len | Some e => relIndex len e end in
  firstn (Z.to_nat (to - from)) (skipn (Z.to_nat from) s).

(** *** Searching: [indexOf], [replace] and [split] with string patterns *)

Fixpoint startsWith (pat s : jsstring) : bool :=
  match pat, s with
  | [], _ => true
  | p :: pat', c :: s' => N.eqb p c && startsWith pat' s'
  | _ :: _, [] => false
  end.

Fixpoint indexOf (pat s : jsstring) : option nat :=
  if startsWith pat s then Some O
  else match s with
       | [] => None
       | _ :: s' => option_map S (indexOf pat s')
       end.

(** [s.replace(pat, rep)] for a string pattern and a replacement without
    [$]: only the first occurrence is replaced, and a string without the
    pattern is returned as it is. *)
Definition replace (s pat rep : jsstring) : jsstring :=
  match indexOf pat s with
  | None => s
  | Some i => firstn i s ++ rep ++ skipn (i + length pat) s
  end.

Fixpoint splitFuel (fuel : nat) (sep s : jsstring) : list jsstring :=
  match fuel with
  | O => [s]
  | S fuel' =>
      match indexOf sep s with
      | None => [s]
      | Some i => firstn i s :: splitFuel fuel' sep (skipn (i + length sep) s)
      end
  end.

(** [s.split(sep)] for a non-empty string separator: the pieces between
    the successive leftmost matches.  Each match consumes at least one
    character, so [length s] rounds are enough (lemma [split_unfold]). *)
Definition split (s sep : jsstring) : list jsstring :=
  splitFuel (length s) sep s.

(** Reading an element of an array, [parts[i]], gives [undefined] outside
    the array; [undefined] turns into the text "undefined" when it is
    concatenated to a string. *)
Definition at_ (parts : list jsstring) (i : nat) : option jsstring :=
  nth_error parts i.

Definition str (v : option jsstring) : jsstring :=
  match v with
  | Some s => s
  | None => lit "undefined"
  end.

(** *** [ToNumber] on strings, as [isNaN(amount)] and [amount <= 0] apply it

    The result is kept as the exact value the literal denotes, before it
    is rounded to a double: the two tests of the source only need to know
    whether the value is a number and whether its double is positive. *)

Inductive number : Set :=
| NaN
| Infinity (negative : bool)
| Decimal (negative : bool) (mantissa : N) (exponent : Z).
    (* mantissa * 10 ^ exponent, negated when [negative] *)

(** WhiteSpace and LineTerminator code units. *)
Definition isWhiteSpace (c : N) : bool :=
  ((9 <=? c) && (c <=? 13) || (c =? 32) || (c =? 160) || (c =? 0x1680)
   || (0x2000 <=? c) && (c <=? 0x200A) || (c =? 0x2028) || (c =? 0x2029)
   || (c =? 0x202F) || (c =? 0x205F) || (c =? 0x3000) || (c =? 0xFEFF))%N.

Fixpoint trimStart (s : jsstring) : jsstring :=
  match s with
  | c :: s' => if isWhiteSpace c then trimStart s' else s
  | [] => []
  end.

Definition trim (s : jsstring) : jsstring :=
  rev (trimStart (rev (trimStart s))).

Definition digitValue (radix c : N) : option N :=
  let v := if ((48 <=? c) && (c <=? 57))%N then Some (c - 48)%N
           else if ((97 <=? c) && (c <=? 122))%N then Some (c - 87)%N
           else if ((65 <=? c) && (c <=? 90))%N then Some (c - 55)%N
           else None in
  match v with
  | Some d => if (d <? radix)%N then Some d else None
  | None => None
  end.

(** The longest run of digits at the head of [s], and what follows it. *)
Fixpoint readDigits (radix : N) (s : jsstring) : list N * jsstring :=
  match s with
  | [] => ([], [])
  | c :: s' =>
      match digitValue radix c with
      | Some d => let (ds, rest) := readDigits radix s' in (d :: ds, rest)
      | None => ([], s)
      end
  end.

Definition digitsValue (radix : N) (ds : list N) : N :=
  fold_left (fun acc d => (acc * radix + d)%N) ds 0%N.

(** [0x], [0o] and [0b] literals: a prefix, then digits to the end. *)
Definition parseNonDecimal (t : jsstring) : option N :=
  match t with
  | z :: p :: ds =>
      let radix := if ((p =? 120) || (p =? 88))%N then Some 16%N
                   else if ((p =? 111) || (p =? 79))%N then Some 8%N
                   else if ((p =? 98) || (p =? 66))%N then Some 2%N
                   else None in
      match radix with
      | Some r =>
          match readDigits r ds with
          | ((_ :: _) as vs, []) =>
              if (z =? 48)%N then Some (digitsValue r vs) else None
          | _ => None
          end
      | None => None
      end
  | _ => None
  end.

(** An optional [+] or [-]. *)
Definition readSign (s : jsstring) : bool * jsstring :=
  match s with
  | c :: s' =>
      if (c =? 43)%N then (false, s')
      else if (c =? 45)%N then (true, s')
      else (false, s)
  | [] => (false, s)
  end.

(** ExponentPart, which has to reach the end of the literal. *)
Definition parseExponent (r : jsstring) : option Z :=
  match r with
  | [] => Some 0
  | c :: r' =>
      if ((c =? 101) || (c =? 69))%N then
        let (neg, r'') := readSign r' in
        match readDigits 10 r'' with
        | ((_ :: _) as ds, []) =>
            let v := Z.of_N (digitsValue 10 ds) in
            Some (if neg then - v else v)
        | _ => None
        end
      else None
  end.

(** StrUnsignedDecimalLiteral apart from [Infinity]: digits, an optional
    fraction, an optional exponent, with a digit on at least one side of
    the point. *)
Definition parseUnsignedDecimal (neg : bool) (u : jsstring) : number :=
  let (ip, r1) := readDigits 10 u in
  let (fp, r2) := match r1 with
                  | c :: r => if (c =? 46)%N then readDigits 10 r else ([], r1)
                  | [] => ([], r1)
                  end in
  match ip ++ fp with
  | [] => NaN
  | ds =>
      match parseExponent r2 with
      | Some e => Decimal neg (digitsValue 10 ds) (e - Z.of_nat (length fp))
      | None => NaN
      end
  end.

Definition ToNumber (s : jsstring) : number :=
  match trim s with
  | [] => Decimal false 0 0
  | t =>
      match parseNonDecimal t with
      | Some n => Decimal false n 0
      | None =>
          let (neg, u) := readSign t in
          if eqb u (lit "Infinity") then Infinity neg
          else parseUnsignedDecimal neg u
      end
  end.

Definition isNaN (x : number) : bool :=
  match x with
  | NaN => true
  | _ => false
  end.

(** Whether the double nearest to [m * 10 ^ e] is zero: the value is zero
    or at most [2 ^ -1075], half the smallest positive double (the tie
    goes to the even neighbour, which is zero). *)
Definition roundsToZero (m : N) (e : Z) : bool :=
  (m =? 0)%N || ((e <? 0) && (Z.of_N m * 2 ^ 1075 <=? 10 ^ (- e))).

(** [x <= 0] *)
Definition leZero (x : number) : bool :=
  match x with
  | NaN => false
  | Infinity neg => neg
  | Decimal neg m e => neg || roundsToZero m e
  end.

End JS.

Import JS.

(** ** [src/api/orderkouta/orderkuota.js]: the checksum *)

(** One round of the inner loop:
    [if (crc & 0x8000) crc = (crc << 1) ^ 0x1021; else crc <<= 1]. *)
Definition crcRound (crc : Z) : Z :=
  if truthy (and crc 0x8000) then xor (shl crc 1) 0x1021 else shl crc 1.

(** The body of the outer loop for one character:
    [crc ^= str.charCodeAt(c) << 8] and then eight rounds. *)
Definition crcChar (crc : Z) (c : N) : Z :=
  Nat.iter 8 crcRound (xor crc (shl (charCode c) 8)).

Definition crcLoop (str : jsstring) : Z := fold_left crcChar str 0xFFFF.

(** [("000" + (crc & 0xFFFF).toString(16).toUpperCase()).slice(-4)] *)
Definition crcHex (crc : Z) : jsstring :=
  slice (lit "000" ++ toUpperCase (toString 16 (and crc 0xFFFF))) (-4) None.

Definition calculateCRC16 (str : jsstring) : jsstring := crcHex (crcLoop str).

(** ** [src/api/orderkouta/orderkuota.js]: the composer *)

(** The three errors [createDynamicQRIS] throws, by their messages:
    "Invalid base QRIS data provided.", "Invalid amount provided. Must be a
    positive number." and "QRIS data string has an unexpected format.". *)
Inductive error : Set :=
| InvalidBaseData
| InvalidAmount
| UnexpectedFormat.

Inductive result : Set :=
| Ok (payload : jsstring)
| Err (e : error).

(** [createDynamicQRIS(baseQrisData, amount)] up to the string it hands to
    [QRCode.toBuffer]; rendering, upload and the transaction record are
    outside.  Both arguments are strings, as the route handler passes them
    from [req.query]; on a string [amount.toString()] is the string itself,
    and [isNaN] and [<=] convert it with [ToNumber]. *)
Definition createDynamicQRIS (baseQrisData amount : jsstring) : result :=
  if (length baseQrisData <? 10)%nat then Err InvalidBaseData
  else if isNaN (ToNumber amount) || leZero (ToNumber amount)
  then Err InvalidAmount
  else
    let processedQris := slice baseQrisData 0 (Some (-4)) in
    let processedQris := replace processedQris (lit "010211") (lit "010212") in
    let parts := split processedQris (lit "5802ID") in
    if negb (length parts =? 2)%nat then Err UnexpectedFormat
    else
      let amountStr := amount in
      let amountField :=
        lit "54"
        ++ slice (lit "0" ++ toString 10 (Z.of_nat (length amountStr))) (-2) None
        ++ amountStr in
      let finalQrisString :=
        str (at_ parts 0) ++ amountField ++ lit "5802ID" ++ str (at_ parts 1) in
      let crc := calculateCRC16 finalQrisString in
      Ok (finalQrisString ++ crc).

(** ** The older route file: [convertCRC16] and [createQRIS] *)

Definition convertRound (crc : Z) : Z :=
  if truthy (and crc 0x8000) then xor (shl crc 1) 0x1021 else shl crc 1.

Definition convertChar (crc : Z) (c : N) : Z :=
  Nat.iter 8 convertRound (xor crc (shl (charCode c) 8)).

Definition convertCRC16 (str : jsstring) : jsstring :=
  let crc := fold_left convertChar str 0xFFFF in
  let hex := and crc 0xFFFF in
  let hex := slice (lit "000" ++ toUpperCase (toString 16 hex)) (-4) None in
  hex.

(** [createQRIS(amount, codeqr)] up to the string it hands to
    [QRCode.toBuffer].  It checks nothing: a missing second piece of the
    split is concatenated as "undefined", further pieces are dropped. *)
Definition createQRIS (amount codeqr : jsstring) : jsstring :=
  let qrisData := codeqr in
  let qrisData := slice qrisData 0 (Some (-4)) in
  let step1 := replace qrisData (lit "010211") (lit "010212") in
  let step2 := split step1 (lit "5802ID") in
  let amount := amount in
  let uang :=
    lit "54" ++ slice (lit "0" ++ toString 10 (Z.of_nat (length amount))) (-2) None
    ++ amount in
  let uang := uang ++ lit "5802ID" in
  let result :=
    (str (at_ step2 0) ++ uang ++ str (at_ step2 1))
    ++ convertCRC16 (str (at_ step2 0) ++ uang ++ str (at_ step2 1)) in
  result.

(** ** The checksum as the specification words it

    CRC-16/CCITT-FALSE: a 16-bit register that starts at [0xFFFF]; each
    character's code, masked to one byte, is XORed into the high byte; then
    eight rounds shift left by one, XORing the polynomial [0x1021] when the
    top bit was set, the register being truncated to 16 bits after every
    step; the result is printed as four uppercase hexadecimal digits. *)

Module Reference.

Definition mask16 (r : Z) : Z := Z.land r 0xFFFF.

Definition round (r : Z) : Z :=
  if Z.testbit r 15 then mask16 (Z.lxor (Z.shiftl r 1) 0x1021)
  else mask16 (Z.shiftl r 1).

Definition feed (r : Z) (c : N) : Z :=
  Nat.iter 8 round (mask16 (Z.lxor r (Z.shiftl (Z.land (Z.of_N c) 0xFF) 8))).

Definition register (s : jsstring) : Z := fold_left feed s 0xFFFF.

Definition hexDigit (d : Z) : N :=
  nth (Z.to_nat d) (lit "0123456789ABCDEF") 0%N.

Definition hex4 (r : Z) : jsstring :=
  [hexDigit (r / 4096 mod 16); hexDigit (r / 256 mod 16);
   hexDigit (r / 16 mod 16); hexDigit (r mod 16)].

Definition compute_checksum (s : jsstring) : jsstring :=
  hex4 (mask16 (register s)).

End Reference.

(** ** Markers of the payload format *)

Definition static_marker : jsstring := lit "010211".
Definition dynamic_marker : jsstring := lit "010212".
Definition anchor : jsstring := lit "5802ID".

(** The amount field of the source: ["54" + ("0" + len).slice(-2) + amount]. *)
Definition lengthPrefix (amountStr : jsstring) : jsstring :=
  slice (lit "0" ++ toString 10 (Z.of_nat (length amountStr))) (-2) None.

Definition amountField (amountStr : jsstring) : jsstring :=
  lit "54" ++ lengthPrefix amountStr ++ amountStr.

Definition isUpperHex (c : N) : bool :=
  ((48 <=? c) && (c <=? 57) || (65 <=? c) && (c <=? 70))%N.

(** ** Notions the statements are written with *)

(** Number of positions of [s] at which [pat] starts. *)
Fixpoint occurrences (pat s : jsstring) : nat :=
  ((if startsWith pat s then 1 else 0) +
   match s with
   | [] => 0
   | _ :: s' => occurrences pat s'
   end)%nat.

(** The low 16 bits of an integer. *)
Definition low16 (x : Z) : Z := x mod 2 ^ 16.

(** The printing step of the checksum functions, on its own. *)
Definition printHex (r : Z) : jsstring :=
  slice (lit "000" ++ toUpperCase (toString 16 r)) (-4) None.

(** A property checked on [n] consecutive integers from [z] on. *)
Fixpoint allFrom (n : nat) (z : Z) (p : Z -> bool) : bool :=
  match n with
  | O => true
  | S n' => p z && allFrom n' (z + 1) p
  end.

(** The specification's two-digit zero-padded decimal form of a count. *)
Definition zeroPad2 (n : Z) : jsstring :=
  let d := toString 10 n in
  if (length d <? 2)%nat then lit "0" ++ d else d.

(** The last two characters of a string. *)
Definition lastTwo (s : jsstring) : jsstring := skipn (length s - 2) s.

Definition isDigit (c : N) : bool := ((48 <=? c) && (c <=? 57))%N.

(** The number a string of decimal digits denotes. *)
Definition decimalValue (s : jsstring) : N :=
  digitsValue 10 (List.map (fun c => (c - 48)%N) s).

(** The amount check of [createDynamicQRIS]:
    [!(isNaN(amount) || amount <= 0)]. *)
Definition accepted (amount : jsstring) : bool :=
  negb (isNaN (ToNumber amount) || leZero (ToNumber amount)).

(** The template without its last four characters, and the same after the
    mode switch: what [createDynamicQRIS] splits at the anchor. *)
Definition stripped (t : jsstring) : jsstring := slice t 0 (Some (-4)).

Definition processed (t : jsstring) : jsstring :=
  replace (stripped t) static_marker dynamic_marker.

(** The payload before the checksum is appended. *)
Definition assemble (head amountStr tail : jsstring) : jsstring :=
  head ++ amountField amountStr ++ anchor ++ tail.

(** ** Concrete inputs *)

(** A template with both markers and a four-character checksum, the
    amount of the specification's example, and the payload composed from
    the two. *)
Definition example_template : jsstring :=
  lit "00020101021126570011ID.DANA.WWW5802ID5303360ABCD".

Definition example_amount : jsstring := lit "15000".

Definition example_output : jsstring :=
  lit "00020101021226570011ID.DANA.WWW5405150005802ID5303360946C".

(** An amount of one hundred digits. *)
Definition long_amount : jsstring := repeat 49%N 100.

(** A template without the static-mode marker. *)
Definition unmarked_template : jsstring :=
  lit "00020126570011ID.DANA.WWW5802ID5303360ABCD".

(** A template without the anchor. *)
Definition anchorless_template : jsstring := lit "00020101021153033606304A1B2".

(** A template whose only anchor runs into the last four characters. *)
Definition straddling_template : jsstring := lit "0002010102115802ID12".

(** A template whose second anchor runs into the last four characters. *)
Definition overlapping_template : jsstring := lit "00025802ID5303605802ID".

(** ** The other functions of the two route files *)

(** [Buffer.prototype.toString('hex')]: two lowercase hexadecimal digits
    for every byte. *)
Module Node.

Definition hexByte (b : Byte.byte) : jsstring :=
  [digitChar (Byte.to_N b / 16); digitChar (Byte.to_N b mod 16)].

Definition toHex (buf : list Byte.byte) : jsstring := flat_map hexByte buf.

End Node.

(** [generateTransactionId()] of [orderkuota.js], as a function of what it
    reads from its environment: the value of [Date.now()], an integer number
    of milliseconds, which the template literal prints in decimal, and the
    buffer [crypto.randomBytes(4)] returns. *)
Module Orderkuota.

Definition generateTransactionId
    (timestamp : Z) (randomBytes : list Byte.byte) : jsstring :=
  let randomPart := toUpperCase (Node.toHex randomBytes) in
  lit "ALLXD-DEV-" ++ toString 10 timestamp ++ lit "-" ++ randomPart.

End Orderkuota.

(** [generateTransactionId()] of the older route file, as a function of the
    buffer [crypto.randomBytes(2)] returns. *)
Module Legacy.

Definition generateTransactionId (randomBytes : list Byte.byte) : jsstring :=
  lit "AllxdDev-" ++ toUpperCase (Node.toHex randomBytes).

End Legacy.

(** [generateQRIS(amount)] of the older route file, up to the string it
    hands to [QRCode.toBuffer]: [createQRIS] on the placeholder template the
    file ships with. *)
Definition generateQRIS (amount : jsstring) : jsstring :=
  let qrisData := lit "code qris lu" in
  let qrisData := slice qrisData 0 (Some (-4)) in
  let step1 := replace qrisData (lit "010211") (lit "010212") in
  let step2 := split step1 (lit "5802ID") in
  let amount := amount in
  let uang :=
    lit "54" ++ slice (lit "0" ++ toString 10 (Z.of_nat (length amount))) (-2) None
    ++ amount in
  let uang := uang ++ lit "5802ID" in
  let result :=
    (str (at_ step2 0) ++ uang ++ str (at_ step2 1))
    ++ convertCRC16 (str (at_ step2 0) ++ uang ++ str (at_ step2 1)) in
  result.

(** One round of the reference register, backwards. *)
Definition unround (y : Z) : Z :=
  if Z.testbit y 0 then Z.lor (Z.shiftr (Z.lxor y 0x1021) 1) 0x8000
  else Z.shiftr y 1.

(** The value four hexadecimal digits denote. *)
Definition unhex4 (s : jsstring) : Z :=
  Z.of_N (digitsValue 16
            (List.map (fun c => match digitValue 16 c with
                                | Some d => d
                                | None => 0%N
                                end) s)).

(** A template with the anchor twice before its last four characters. *)
Definition twice_anchored_template : jsstring :=
  lit "00020101021126570011ID.DANA.WWW5802ID53033605802ID6304ABCD".

(** * Proofs *)

(** ** Arithmetic on the low 16 bits *)

Section Low16.

Lemma land_FFFF x : Z.land x 0xFFFF = low16 x.
Proof. change 0xFFFF with (Z.ones 16). apply Z.land_ones. lia. Qed.

Lemma low16_range x : 0 <= low16 x < 65536.
Proof. unfold low16. change (2 ^ 16) with 65536. apply Z.mod_pos_bound. lia. Qed.

Lemma low16_idem x : low16 (low16 x) = low16 x.
Proof. unfold low16. apply Z.mod_mod. discriminate. Qed.

Lemma low16_bit x i : 0 <= i < 16 -> Z.testbit (low16 x) i = Z.testbit x i.
Proof. intros H. unfold low16. apply Z.mod_pow2_bits_low. lia. Qed.

Lemma low16_bit_high x i : 16 <= i -> Z.testbit (low16 x) i = false.
Proof. intros H. unfold low16. apply Z.mod_pow2_bits_high. lia. Qed.

Lemma low16_ToInt32 x : low16 (ToInt32 x) = low16 x.
Proof.
  unfold ToInt32, low16.
  assert (E : (x mod 2 ^ 32) mod 2 ^ 16 = x mod 2 ^ 16).
  { apply Z.mod_mod_divide. exists (2 ^ 16). reflexivity. }
  destruct (2 ^ 31 <=? x mod 2 ^ 32); [|exact E].
  rewrite <- E.
  replace (x mod 2 ^ 32 - 2 ^ 32) with (x mod 2 ^ 32 + (- 2 ^ 16) * 2 ^ 16) by reflexivity.
  apply Z.mod_add. discriminate.
Qed.

Lemma low16_lxor a b : low16 (Z.lxor a b) = Z.lxor (low16 a) (low16 b).
Proof.
  apply Z.bits_inj'. intros i Hi.
  destruct (Z_lt_le_dec i 16).
  - rewrite Z.lxor_spec, !low16_bit, Z.lxor_spec by lia. reflexivity.
  - rewrite Z.lxor_spec, !low16_bit_high by lia. reflexivity.
Qed.

Lemma low16_shiftl a n :
  0 <= n -> low16 (Z.shiftl a n) = low16 (Z.shiftl (low16 a) n).
Proof.
  intros Hn. apply Z.bits_inj'. intros i Hi.
  destruct (Z_lt_le_dec i 16).
  - rewrite !low16_bit, !Z.shiftl_spec by lia.
    destruct (Z_lt_le_dec (i - n) 0).
    + rewrite !Z.testbit_neg_r by lia. reflexivity.
    + rewrite low16_bit by lia. reflexivity.
  - rewrite !low16_bit_high by lia. reflexivity.
Qed.

End Low16.

(** ** The checksum loop computes the reference register *)

Section Checksum.

Lemma low16_shl a n :
  0 <= n < 32 -> low16 (shl a n) = low16 (Z.shiftl (low16 a) n).
Proof.
  intros Hn. unfold shl, ToUint32.
  rewrite (Z.mod_small n (2 ^ 32)) by lia.
  rewrite (Z.mod_small n 32) by lia.
  rewrite low16_ToInt32, low16_shiftl, low16_ToInt32 by lia.
  reflexivity.
Qed.

Lemma low16_xor a b : low16 (xor a b) = Z.lxor (low16 a) (low16 b).
Proof. unfold xor. now rewrite low16_lxor, !low16_ToInt32. Qed.

Lemma land_pow2 y n :
  0 <= n -> Z.land y (2 ^ n) = if Z.testbit y n then 2 ^ n else 0.
Proof.
  intros Hn. apply Z.bits_inj'. intros i Hi.
  rewrite Z.land_spec, Z.pow2_bits_eqb by lia.
  destruct (Z.eqb_spec n i) as [->|Hne].
  - destruct (Z.testbit y i); simpl.
    + rewrite Z.pow2_bits_true by lia. reflexivity.
    + rewrite Z.bits_0. reflexivity.
  - rewrite andb_false_r.
    destruct (Z.testbit y n).
    + rewrite Z.pow2_bits_false by lia. reflexivity.
    + rewrite Z.bits_0. reflexivity.
Qed.

Lemma truthy_top_bit x : truthy (and x 0x8000) = Z.testbit (low16 x) 15.
Proof.
  unfold truthy, and.
  change (ToInt32 0x8000) with (2 ^ 15).
  rewrite land_pow2 by lia.
  rewrite <- (low16_ToInt32 x), low16_bit by lia.
  destruct (Z.testbit (ToInt32 x) 15); reflexivity.
Qed.

Lemma crcRound_low16 x : low16 (crcRound x) = Reference.round (low16 x).
Proof.
  unfold crcRound, Reference.round, Reference.mask16.
  rewrite truthy_top_bit, !land_FFFF.
  destruct (Z.testbit (low16 x) 15).
  - rewrite low16_xor, low16_lxor, low16_shl by lia. reflexivity.
  - rewrite low16_shl by lia. reflexivity.
Qed.

Lemma rounds_low16 n x :
  low16 (Nat.iter n crcRound x) = Nat.iter n Reference.round (low16 x).
Proof.
  induction n as [|n IH]; [reflexivity|].
  rewrite !Nat.iter_succ, crcRound_low16, IH. reflexivity.
Qed.

Lemma high_byte c :
  low16 (Z.shiftl (low16 c) 8) = low16 (Z.shiftl (Z.land c 0xFF) 8).
Proof.
  apply Z.bits_inj'. intros i Hi.
  destruct (Z_lt_le_dec i 16); [|now rewrite !low16_bit_high by lia].
  rewrite !low16_bit, !Z.shiftl_spec by lia.
  destruct (Z_lt_le_dec (i - 8) 0); [now rewrite !Z.testbit_neg_r by lia|].
  rewrite low16_bit by lia.
  change 0xFF with (Z.ones 8).
  rewrite Z.land_ones, Z.mod_pow2_bits_low by lia. reflexivity.
Qed.

Lemma crcChar_low16 x c : low16 (crcChar x c) = Reference.feed (low16 x) c.
Proof.
  unfold crcChar, Reference.feed, Reference.mask16, charCode.
  rewrite rounds_low16, land_FFFF. f_equal.
  rewrite low16_xor, low16_lxor, low16_idem, low16_shl by lia.
  now rewrite high_byte.
Qed.

Lemma fold_left_step {A B} (f : A -> B -> A) (c : B) (s : list B) (a : A) :
  fold_left f (c :: s) a = fold_left f s (f a c).
Proof. reflexivity. Qed.

Lemma fold_low16 s : forall a,
  low16 (fold_left crcChar s a) = fold_left Reference.feed s (low16 a).
Proof.
  induction s as [|c s IH]; intros a; [reflexivity|].
  rewrite !fold_left_step, IH, crcChar_low16. reflexivity.
Qed.

Lemma crcLoop_register s : low16 (crcLoop s) = Reference.register s.
Proof. unfold crcLoop. rewrite fold_low16. reflexivity. Qed.

Lemma and_FFFF x : and x 0xFFFF = low16 x.
Proof.
  unfold and. change (ToInt32 0xFFFF) with 0xFFFF.
  now rewrite land_FFFF, low16_ToInt32.
Qed.

End Checksum.

(** ** Printing the register: four uppercase hexadecimal digits *)

Section Hex.

Lemma eqb_eq s : forall t, eqb s t = true -> s = t.
Proof.
  induction s as [|c s IH]; intros [|d t] H; simpl in H;
    try discriminate; [reflexivity|].
  apply andb_true_iff in H. destruct H as [Hc Hs].
  apply N.eqb_eq in Hc. f_equal; auto.
Qed.

Lemma allFrom_spec p n : forall z k,
  allFrom n z p = true -> z <= k < z + Z.of_nat n -> p k = true.
Proof.
  induction n as [|n IH]; intros z k H Hk; [lia|].
  simpl in H. apply andb_true_iff in H. destruct H as [Hz Hrest].
  destruct (Z.eq_dec k z) as [->|Hne]; [exact Hz|].
  apply (IH (z + 1)); [exact Hrest|lia].
Qed.

Lemma printHex_all :
  allFrom (Z.to_nat 65536) 0
    (fun r => eqb (printHex r) (Reference.hex4 r)) = true.
Proof. vm_compute. reflexivity. Qed.

Lemma printHex_hex4 r : 0 <= r < 65536 -> printHex r = Reference.hex4 r.
Proof.
  intros Hr. apply eqb_eq.
  apply (allFrom_spec _ _ 0 r printHex_all).
  rewrite Z2Nat.id; lia.
Qed.

Lemma hexDigit_upper d : 0 <= d < 16 -> isUpperHex (Reference.hexDigit d) = true.
Proof.
  intros Hd.
  assert (H : allFrom 16 0 (fun d => isUpperHex (Reference.hexDigit d)) = true)
    by reflexivity.
  apply (allFrom_spec _ 16 0 d H). simpl. lia.
Qed.

Lemma hex4_upper r : forallb isUpperHex (Reference.hex4 r) = true.
Proof.
  unfold Reference.hex4. simpl.
  rewrite !hexDigit_upper; [reflexivity|apply Z.mod_pos_bound; lia..].
Qed.

Lemma crcHex_hex4 x : crcHex x = Reference.hex4 (low16 x).
Proof.
  unfold crcHex. rewrite and_FFFF.
  apply printHex_hex4, low16_range.
Qed.

Lemma calculateCRC16_reference s :
  calculateCRC16 s = Reference.compute_checksum s.
Proof.
  unfold calculateCRC16, Reference.compute_checksum, Reference.mask16.
  now rewrite crcHex_hex4, crcLoop_register, land_FFFF,
    <- crcLoop_register, low16_idem.
Qed.

Lemma convertRound_crcRound : convertRound = crcRound.
Proof. reflexivity. Qed.

Lemma convertChar_crcChar : convertChar = crcChar.
Proof. unfold convertChar, crcChar. now rewrite convertRound_crcRound. Qed.

Lemma convertCRC16_calculateCRC16 s : convertCRC16 s = calculateCRC16 s.
Proof.
  unfold convertCRC16, calculateCRC16, crcHex, crcLoop.
  now rewrite convertChar_crcChar.
Qed.

Lemma calculateCRC16_length s : length (calculateCRC16 s) = 4%nat.
Proof. rewrite calculateCRC16_reference. reflexivity. Qed.

Lemma calculateCRC16_upper s : forallb isUpperHex (calculateCRC16 s) = true.
Proof. rewrite calculateCRC16_reference. apply hex4_upper. Qed.

End Hex.

(** ** Searching and cutting strings *)

Section Strings.

Lemma startsWith_skipn pat : forall s,
  startsWith pat s = true -> s = pat ++ skipn (length pat) s.
Proof.
  induction pat as [|p pat IH]; intros s H; [reflexivity|].
  destruct s as [|c s]; [discriminate|].
  cbn [startsWith] in H. apply andb_true_iff in H. destruct H as [Hc Hs].
  apply N.eqb_eq in Hc. subst c.
  cbn [length skipn app]. f_equal. apply IH, Hs.
Qed.

(** Only the first [length pat] characters matter. *)
Lemma startsWith_firstn pat : forall s,
  startsWith pat (firstn (length pat) s) = startsWith pat s.
Proof.
  induction pat as [|p pat IH]; intros s; [reflexivity|].
  destruct s as [|c s]; [reflexivity|].
  cbn [length firstn startsWith]. now rewrite IH.
Qed.

Lemma indexOf_step pat c s :
  indexOf pat (c :: s) =
  if startsWith pat (c :: s) then Some O else option_map S (indexOf pat s).
Proof. reflexivity. Qed.

(** A match found at [i] cuts the string in three. *)
Lemma indexOf_Some pat : forall s i,
  indexOf pat s = Some i ->
  s = firstn i s ++ pat ++ skipn (i + length pat) s /\ (i + length pat <= length s)%nat.
Proof.
  induction s as [|c s IH]; intros i H.
  - destruct pat; [|discriminate]. injection H as <-. split; reflexivity.
  - rewrite indexOf_step in H.
    destruct (startsWith pat (c :: s)) eqn:E.
    + injection H as <-. cbn [firstn app Nat.add]. split.
      * now apply startsWith_skipn.
      * apply startsWith_skipn in E. apply (f_equal (@length N)) in E.
        rewrite length_app in E. lia.
    + destruct (indexOf pat s) as [j|] eqn:Ej; [|discriminate].
      injection H as <-. destruct (IH j eq_refl) as [Hs Hl].
      cbn [firstn app Nat.add skipn length]. split; [|lia].
      f_equal. exact Hs.
Qed.

Lemma replace_step pat rep c s :
  replace (c :: s) pat rep =
  if startsWith pat (c :: s) then rep ++ skipn (length pat) (c :: s)
  else c :: replace s pat rep.
Proof.
  unfold replace. rewrite indexOf_step.
  destruct (startsWith pat (c :: s)); [reflexivity|].
  destruct (indexOf pat s); reflexivity.
Qed.

Lemma replace_length pat rep : length rep = length pat ->
  forall s, length (replace s pat rep) = length s.
Proof.
  intros Hlen s. unfold replace.
  destruct (indexOf pat s) as [i|] eqn:E; [|reflexivity].
  apply indexOf_Some in E. destruct E as [_ Hl].
  rewrite !length_app, length_firstn, length_skipn. lia.
Qed.

(** *** [split] *)

Section Split.

Variables (p : N) (pat : jsstring).
Let sep := p :: pat.

(** More fuel than characters changes nothing. *)
Lemma splitFuel_enough : forall n m s,
  (length s <= n)%nat -> (length s <= m)%nat ->
  splitFuel n sep s = splitFuel m sep s.
Proof.
  induction n as [|n IH]; intros m s Hn Hm.
  - destruct s; [|simpl in Hn; lia].
    destruct m; reflexivity.
  - destruct m as [|m].
    + destruct s; [reflexivity|simpl in Hm; lia].
    + cbn [splitFuel].
      destruct (indexOf sep s) as [i|] eqn:E; [|reflexivity].
      f_equal. apply indexOf_Some in E. destruct E as [_ Hl].
      assert (0 < length sep)%nat by (subst sep; simpl; lia).
      apply IH; rewrite length_skipn; lia.
Qed.

(** The recursion [split] stands for. *)
Lemma split_unfold s :
  split s sep =
  match indexOf sep s with
  | None => [s]
  | Some i => firstn i s :: split (skipn (i + length sep) s) sep
  end.
Proof.
  unfold split.
  destruct s as [|c s]; [reflexivity|].
  cbn [length splitFuel].
  destruct (indexOf sep (c :: s)) as [i|] eqn:E; [|reflexivity].
  f_equal. apply indexOf_Some in E. destruct E as [_ Hl].
  assert (0 < length sep)%nat by (subst sep; simpl; lia).
  cbn [length] in Hl.
  apply splitFuel_enough; rewrite ?length_skipn; cbn [length]; lia.
Qed.

Lemma split_nonempty s : split s sep <> [].
Proof. rewrite split_unfold. destruct (indexOf sep s); discriminate. Qed.

(** A split in exactly two pieces: the separator occurs once on the
    scan, and the pieces are what is before and after it. *)
Lemma split_two s :
  length (split s sep) = 2%nat ->
  exists head tail,
    split s sep = [head; tail] /\ s = head ++ sep ++ tail /\
    indexOf sep s = Some (length head) /\ indexOf sep tail = None.
Proof.
  intros H. rewrite split_unfold in H |- *.
  destruct (indexOf sep s) as [i|] eqn:E; [|discriminate].
  pose proof (indexOf_Some _ _ _ E) as [Hs Hl].
  remember (skipn (i + length sep) s) as rest eqn:Hrest.
  rewrite split_unfold in H |- *.
  destruct (indexOf sep rest) as [j|] eqn:Ej.
  - exfalso. cbn [length] in H.
    pose proof (split_nonempty (skipn (j + length sep) rest)) as Hne.
    destruct (split (skipn (j + length sep) rest) sep); [congruence|].
    cbn [length] in H. lia.
  - exists (firstn i s), rest.
    split; [reflexivity|]. split; [exact Hs|]. split; [|assumption].
    rewrite ?E, length_firstn. f_equal. lia.
Qed.

End Split.

(** *** [slice] at the two places the source uses it *)

Lemma slice_strip s :
  slice s 0 (Some (-4)) = firstn (length s - 4) s.
Proof.
  unfold slice, relIndex. cbn [Z.ltb Z.compare].
  rewrite Z.min_l by lia. cbn [Z.to_nat skipn].
  f_equal. lia.
Qed.

Lemma slice_last k s : (0 < k)%Z ->
  slice s (- k) None = skipn (length s - Z.to_nat k) s.
Proof.
  intros Hk. unfold slice, relIndex.
  destruct (Z.ltb_spec (- k) 0); [|lia].
  rewrite firstn_all2; [f_equal; lia|].
  rewrite length_skipn. lia.
Qed.

Lemma slice_strip_app x crc : length crc = 4%nat ->
  slice (x ++ crc) 0 (Some (-4)) = x.
Proof.
  intros H. rewrite slice_strip, length_app, H.
  replace (length x + 4 - 4)%nat with (length x + 0)%nat by lia.
  rewrite firstn_app_2. cbn [firstn]. apply app_nil_r.
Qed.

Lemma slice_last_app x crc k : length crc = k -> (0 < k)%nat ->
  slice (x ++ crc) (- Z.of_nat k) None = crc.
Proof.
  intros H Hk. rewrite slice_last by lia.
  rewrite length_app, H, Nat2Z.id.
  replace (length x + k - k)%nat with (length x) by lia.
  rewrite skipn_app, skipn_all, Nat.sub_diag. reflexivity.
Qed.

Lemma slice_strip_length s : (4 <= length s)%nat ->
  length (slice s 0 (Some (-4))) = (length s - 4)%nat.
Proof. intros H. rewrite slice_strip, length_firstn. lia. Qed.

End Strings.

(** ** Decimal printing and the length prefix *)

Section Printing.

Local Open Scope N_scope.

Variable radix : N.
Hypothesis radix_ge_2 : 2 <= radix.

Lemma digitsFuel_acc : forall f n acc,
  digitsFuel f radix n acc = digitsFuel f radix n [] ++ acc.
Proof.
  induction f as [|f IH]; intros n acc; [reflexivity|].
  cbn [digitsFuel].
  destruct (n / radix =? 0); [reflexivity|].
  rewrite IH, (IH _ [_]), <- app_assoc. reflexivity.
Qed.

Lemma log2_div n : n / radix <> 0 -> N.log2 (n / radix) < N.log2 n.
Proof.
  intros Hq.
  assert (Hr : radix <> 0) by lia.
  assert (H2 : n / radix <= n / 2) by (apply N.div_le_compat_l; lia).
  assert (Hn : 2 <= n).
  { destruct (N.lt_ge_cases n 2) as [Hlt|]; [|assumption].
    exfalso. apply Hq. apply N.div_small. lia. }
  apply N.le_lt_trans with (N.log2 (n / 2)); [now apply N.log2_le_mono|].
  rewrite <- N.div2_div, N.div2_spec, N.log2_shiftr.
  assert (0 < N.log2 n) by (apply N.log2_pos; lia).
  lia.
Qed.

(** Fuel beyond [log2 n] is never used. *)
Lemma digitsFuel_enough : forall f g n acc,
  (N.to_nat (N.log2 n) < f)%nat -> (N.to_nat (N.log2 n) < g)%nat ->
  digitsFuel f radix n acc = digitsFuel g radix n acc.
Proof.
  induction f as [|f IH]; intros g n acc Hf Hg; [lia|].
  destruct g as [|g]; [lia|].
  cbn [digitsFuel].
  destruct (N.eqb_spec (n / radix) 0) as [|Hq]; [reflexivity|].
  pose proof (log2_div n Hq).
  apply IH; lia.
Qed.

(** Positional notation: the last digit is the remainder, the digits
    before it print the quotient. *)
Lemma natToString_unfold n :
  natToString radix n =
  if n / radix =? 0 then [digitChar (n mod radix)]
  else natToString radix (n / radix) ++ [digitChar (n mod radix)].
Proof.
  unfold natToString at 1. cbn [digitsFuel].
  destruct (N.eqb_spec (n / radix) 0) as [|Hq]; [reflexivity|].
  rewrite digitsFuel_acc. f_equal.
  pose proof (log2_div n Hq).
  apply digitsFuel_enough; lia.
Qed.

End Printing.

Section LengthPrefix.

Local Open Scope N_scope.

Lemma natToString_small n : n < 10 -> natToString 10 n = [digitChar n].
Proof.
  intros H. rewrite natToString_unfold by lia.
  rewrite N.div_small, N.mod_small by lia. reflexivity.
Qed.

(** The decimal form of [n] ends with its tens and units digits. *)
Lemma natToString_tail n : 10 <= n ->
  exists pre,
    natToString 10 n =
    pre ++ [digitChar (n / 10 mod 10); digitChar (n mod 10)].
Proof.
  intros H. rewrite natToString_unfold by lia.
  destruct (N.eqb_spec (n / 10) 0) as [Hq|Hq].
  - exfalso. apply N.div_small_iff in Hq; lia.
  - rewrite (natToString_unfold 10) by lia.
    destruct (n / 10 / 10 =? 0).
    + exists []. reflexivity.
    + exists (natToString 10 (n / 10 / 10)). rewrite <- app_assoc. reflexivity.
Qed.

Lemma natToString_two n : 10 <= n < 100 ->
  natToString 10 n = [digitChar (n / 10); digitChar (n mod 10)].
Proof.
  intros H. rewrite natToString_unfold by lia.
  assert (Hq : 1 <= n / 10 < 10).
  { split; [apply N.div_le_lower_bound; lia|apply N.Div0.div_lt_upper_bound; lia]. }
  destruct (N.eqb_spec (n / 10) 0); [lia|].
  rewrite natToString_small by lia. reflexivity.
Qed.

Lemma lastTwo_app pre a b : lastTwo (pre ++ [a; b]) = [a; b].
Proof.
  unfold lastTwo. rewrite length_app. cbn [length].
  replace (length pre + 2 - 2)%nat with (length pre) by lia.
  rewrite skipn_app, skipn_all, Nat.sub_diag. reflexivity.
Qed.

Lemma toString_nat (n : nat) :
  toString 10 (Z.of_nat n) = natToString 10 (N.of_nat n).
Proof.
  unfold toString. destruct (Z.ltb_spec (Z.of_nat n) 0); [lia|].
  f_equal. lia.
Qed.

(** What [("0" + n).slice(-2)] produces for a count [n]: the tens and
    units digits, whatever the number of digits of [n]. *)
Lemma padded_digits (n : nat) :
  lastTwo (lit "0" ++ toString 10 (Z.of_nat n)) =
  [digitChar (N.of_nat n / 10 mod 10); digitChar (N.of_nat n mod 10)].
Proof.
  rewrite toString_nat.
  destruct (N.lt_ge_cases (N.of_nat n) 10) as [Hlt|Hge].
  - rewrite natToString_small, N.div_small, (N.mod_small (N.of_nat n)) by lia.
    reflexivity.
  - destruct (natToString_tail _ Hge) as [pre ->].
    rewrite app_assoc. apply lastTwo_app.
Qed.

Lemma slice_lastTwo s : slice s (-2) None = lastTwo s.
Proof. unfold lastTwo. now rewrite (slice_last 2) by lia. Qed.

Lemma zeroPad2_digits (m : nat) : (m < 100)%nat ->
  zeroPad2 (Z.of_nat m) =
  [digitChar (N.of_nat m / 10); digitChar (N.of_nat m mod 10)].
Proof.
  intros H. unfold zeroPad2. rewrite toString_nat.
  destruct (N.lt_ge_cases (N.of_nat m) 10) as [Hlt|Hge].
  - rewrite natToString_small, N.div_small, N.mod_small by lia. reflexivity.
  - rewrite natToString_two by lia. reflexivity.
Qed.

Lemma lengthPrefix_digits a :
  lengthPrefix a =
  [digitChar (N.of_nat (length a) / 10 mod 10);
   digitChar (N.of_nat (length a) mod 10)].
Proof. unfold lengthPrefix. now rewrite slice_lastTwo, padded_digits. Qed.

(** The prefix is the length modulo 100, zero-padded to two digits. *)
Lemma lengthPrefix_mod100 a :
  lengthPrefix a = zeroPad2 (Z.of_nat (length a) mod 100).
Proof.
  rewrite lengthPrefix_digits.
  replace (Z.of_nat (length a) mod 100)%Z
    with (Z.of_nat (length a mod 100)) by (rewrite Nat2Z.inj_mod; reflexivity).
  rewrite zeroPad2_digits by (apply Nat.mod_upper_bound; lia).
  rewrite Nat2N.inj_mod. change (N.of_nat 100) with 100.
  set (n := N.of_nat (length a)).
  assert (E : n mod 100 = n mod 10 + (n / 10 mod 10) * 10).
  { change 100 with (10 * 10). rewrite N.Div0.mod_mul_r. lia. }
  rewrite E. f_equal; [f_equal|f_equal; f_equal].
  - rewrite N.div_add by lia.
    rewrite (N.div_small (n mod 10)) by (apply N.mod_lt; lia). reflexivity.
  - rewrite N.Div0.mod_add. symmetry. apply N.Div0.mod_mod.
Qed.

Lemma lengthPrefix_short a : (length a < 100)%nat ->
  lengthPrefix a = zeroPad2 (Z.of_nat (length a)).
Proof.
  intros H. rewrite lengthPrefix_mod100, Z.mod_small by lia. reflexivity.
Qed.

End LengthPrefix.

(** ** Counting the markers *)

Section Markers.

Lemma static_marker_chars : static_marker = [48; 49; 48; 50; 49; 49]%N.
Proof. reflexivity. Qed.

Lemma dynamic_marker_chars : dynamic_marker = [48; 49; 48; 50; 49; 50]%N.
Proof. reflexivity. Qed.

Lemma anchor_chars : anchor = [53; 56; 48; 50; 73; 68]%N.
Proof. reflexivity. Qed.

Lemma occurrences_step pat c s :
  occurrences pat (c :: s) =
  ((if startsWith pat (c :: s) then 1 else 0) + occurrences pat s)%nat.
Proof. reflexivity. Qed.

Lemma indexOf_None_occurrences pat : forall s,
  indexOf pat s = None -> occurrences pat s = 0%nat.
Proof.
  induction s as [|c s IH]; intros H.
  - destruct pat; [discriminate|reflexivity].
  - rewrite indexOf_step in H. rewrite occurrences_step.
    destruct (startsWith pat (c :: s)); [discriminate|].
    destruct (indexOf pat s); [discriminate|]. now rewrite IH.
Qed.

Lemma occurrences_0_indexOf pat : forall s,
  occurrences pat s = 0%nat -> indexOf pat s = None.
Proof.
  induction s as [|c s IH]; intros H.
  - destruct pat; [discriminate|reflexivity].
  - rewrite indexOf_step. rewrite occurrences_step in H.
    destruct (startsWith pat (c :: s)); [discriminate|].
    rewrite IH by exact H. reflexivity.
Qed.

(** A six-character pattern at the head of [c :: x] only sees the first
    five characters of [x]. *)
Lemma startsWith_six pat c x y :
  length pat = 6%nat -> firstn 5 x = firstn 5 y ->
  startsWith pat (c :: x) = startsWith pat (c :: y).
Proof.
  intros Hlen H.
  rewrite <- (startsWith_firstn pat (c :: x)), <- (startsWith_firstn pat (c :: y)).
  rewrite Hlen.
  change (firstn 6 (c :: x)) with (c :: firstn 5 x).
  change (firstn 6 (c :: y)) with (c :: firstn 5 y).
  now rewrite H.
Qed.

(** The mode switch changes the sixth character of the first static
    marker, which is not among the first five characters of the string. *)
Lemma replace_firstn5 : forall s,
  firstn 5 (replace s static_marker dynamic_marker) = firstn 5 s.
Proof.
  induction s as [|c s IH]; [reflexivity|].
  rewrite replace_step.
  destruct (startsWith static_marker (c :: s)) eqn:E.
  - apply startsWith_skipn in E.
    remember (skipn (length static_marker) (c :: s)) as r eqn:Hr.
    rewrite E. reflexivity.
  - change (firstn 5 (c :: ?x)) with (c :: firstn 4 x).
    f_equal.
    change 4%nat with (Nat.min 4 5).
    rewrite <- !firstn_firstn, IH. reflexivity.
Qed.

Lemma replace_absent s :
  occurrences static_marker s = 0%nat ->
  replace s static_marker dynamic_marker = s.
Proof.
  intros H. unfold replace. now rewrite occurrences_0_indexOf.
Qed.

(** Counts over a string that starts with one of the two markers. *)
Lemma count_after_marker r :
  occurrences static_marker (static_marker ++ r) = S (occurrences static_marker r) /\
  occurrences static_marker (dynamic_marker ++ r) = occurrences static_marker r /\
  occurrences dynamic_marker (static_marker ++ r) = occurrences dynamic_marker r /\
  occurrences dynamic_marker (dynamic_marker ++ r) = S (occurrences dynamic_marker r) /\
  occurrences anchor (static_marker ++ r) = occurrences anchor r /\
  occurrences anchor (dynamic_marker ++ r) = occurrences anchor r.
Proof.
  rewrite static_marker_chars, dynamic_marker_chars, anchor_chars.
  cbn [app]. rewrite !occurrences_step. cbn [startsWith N.eqb Pos.eqb andb Nat.add].
  repeat split; reflexivity.
Qed.

Lemma replace_counts : forall s,
  occurrences anchor (replace s static_marker dynamic_marker) = occurrences anchor s /\
  (occurrences static_marker s <> 0%nat ->
   occurrences static_marker s =
     S (occurrences static_marker (replace s static_marker dynamic_marker)) /\
   occurrences dynamic_marker (replace s static_marker dynamic_marker) =
     S (occurrences dynamic_marker s)).
Proof.
  induction s as [|c s [IHa IHm]]; [split; [reflexivity|intros H; now elim H]|].
  rewrite replace_step.
  destruct (startsWith static_marker (c :: s)) eqn:E.
  - apply startsWith_skipn in E.
    remember (skipn (length static_marker) (c :: s)) as r eqn:Hr.
    destruct (count_after_marker r) as (Hss & Hsd & Hds & Hdd & Has & Had).
    rewrite E, Hss, Hsd, Hds, Hdd, Has, Had.
    split; [reflexivity|]. intros _. split; reflexivity.
  - rewrite !occurrences_step.
    set (s' := replace s static_marker dynamic_marker) in *.
    rewrite (startsWith_six anchor c s' s), (startsWith_six static_marker c s' s),
      (startsWith_six dynamic_marker c s' s) by (reflexivity || apply replace_firstn5).
    rewrite E, IHa. split; [reflexivity|].
    cbn [Nat.add]. intros H. destruct (IHm H) as [H1 H2].
    rewrite H2, <- H1. split; [reflexivity|lia].
Qed.

(** *** The anchor never overlaps itself *)

Lemma count_after_anchor r :
  occurrences anchor (anchor ++ r) = S (occurrences anchor r).
Proof.
  rewrite anchor_chars. cbn [app]. rewrite !occurrences_step.
  cbn [startsWith N.eqb Pos.eqb andb Nat.add]. reflexivity.
Qed.

Lemma indexOf_anchor_count : forall s i,
  indexOf anchor s = Some i ->
  occurrences anchor s = S (occurrences anchor (skipn (i + 6) s)).
Proof.
  induction s as [|c s IH]; intros i H; [discriminate|].
  rewrite indexOf_step in H.
  destruct (startsWith anchor (c :: s)) eqn:E.
  - injection H as <-. apply startsWith_skipn in E.
    rewrite E at 1. apply count_after_anchor.
  - destruct (indexOf anchor s) as [j|] eqn:Ej; [|discriminate].
    injection H as <-. rewrite occurrences_step, E.
    cbn [Nat.add skipn]. now apply IH.
Qed.

(** [split] at the anchor gives one piece more than there are anchors. *)
Lemma splitFuel_anchor_length : forall n s,
  (length s <= n)%nat ->
  length (splitFuel n anchor s) = S (occurrences anchor s).
Proof.
  induction n as [|n IH]; intros s Hn.
  - destruct s; [reflexivity|simpl in Hn; lia].
  - cbn [splitFuel].
    destruct (indexOf anchor s) as [i|] eqn:E.
    + cbn [length]. rewrite (indexOf_anchor_count s i E). f_equal.
      change (length anchor) with 6%nat.
      apply IH. apply indexOf_Some in E. destruct E as [_ Hl].
      change (length anchor) with 6%nat in Hl.
      rewrite length_skipn. lia.
    + now rewrite indexOf_None_occurrences.
Qed.

Lemma split_anchor_length s :
  length (split s anchor) = S (occurrences anchor s).
Proof. apply splitFuel_anchor_length. lia. Qed.

Lemma split_anchor_two s :
  length (split s anchor) = 2%nat ->
  exists head tail,
    split s anchor = [head; tail] /\ s = head ++ anchor ++ tail /\
    indexOf anchor s = Some (length head) /\ indexOf anchor tail = None.
Proof. exact (split_two 53%N _ s). Qed.

End Markers.

(** ** Amounts written in decimal digits *)

Section DigitAmounts.

Local Open Scope N_scope.

Ltac decide_tests :=
  repeat match goal with
    | |- context [(?x <=? ?y)] =>
        first [ replace (x <=? y) with true by (symmetry; apply N.leb_le; lia)
              | replace (x <=? y) with false by (symmetry; apply N.leb_gt; lia) ]
    | |- context [(?x <? ?y)] =>
        first [ replace (x <? y) with true by (symmetry; apply N.ltb_lt; lia)
              | replace (x <? y) with false by (symmetry; apply N.ltb_ge; lia) ]
    | |- context [(?x =? ?y)] =>
        first [ replace (x =? y) with false by (symmetry; apply N.eqb_neq; lia)
              | replace (x =? y) with true by (symmetry; apply N.eqb_eq; lia) ]
    end.

Lemma isDigit_range c : isDigit c = true -> 48 <= c <= 57.
Proof.
  unfold isDigit. intros H. apply andb_true_iff in H.
  destruct H as [H1 H2]. apply N.leb_le in H1, H2. lia.
Qed.

Lemma digit_not_space c : isDigit c = true -> isWhiteSpace c = false.
Proof.
  intros H. apply isDigit_range in H. unfold isWhiteSpace.
  decide_tests. reflexivity.
Qed.

Lemma digit_value c : isDigit c = true -> digitValue 10 c = Some (c - 48).
Proof.
  intros H. apply isDigit_range in H. unfold digitValue.
  decide_tests. cbn [andb]. decide_tests. reflexivity.
Qed.

Lemma trimStart_digits s : forallb isDigit s = true -> trimStart s = s.
Proof.
  destruct s as [|c s]; [reflexivity|]. cbn [forallb trimStart].
  intros H. apply andb_true_iff in H. destruct H as [Hc _].
  now rewrite digit_not_space.
Qed.

Lemma forallb_rev {A} (f : A -> bool) s :
  forallb f s = true -> forallb f (rev s) = true.
Proof.
  rewrite !forallb_forall. intros H x Hx. apply H. now apply in_rev.
Qed.

Lemma trim_digits s : forallb isDigit s = true -> trim s = s.
Proof.
  intros H. unfold trim.
  rewrite (trimStart_digits s H).
  rewrite trimStart_digits by now apply forallb_rev.
  apply rev_involutive.
Qed.

Lemma readDigits_digits : forall s,
  forallb isDigit s = true ->
  readDigits 10 s = (List.map (fun c => c - 48) s, []).
Proof.
  induction s as [|c s IH]; [reflexivity|].
  cbn [forallb]. intros H. apply andb_true_iff in H. destruct H as [Hc Hs].
  cbn [readDigits List.map]. rewrite (digit_value c Hc), (IH Hs). reflexivity.
Qed.

Lemma parseNonDecimal_digits s :
  forallb isDigit s = true -> parseNonDecimal s = None.
Proof.
  destruct s as [|z [|p ds]]; try reflexivity.
  cbn [forallb]. intros H.
  apply andb_true_iff in H. destruct H as [_ H].
  apply andb_true_iff in H. destruct H as [Hp _].
  apply isDigit_range in Hp. unfold parseNonDecimal.
  decide_tests. reflexivity.
Qed.

Lemma readSign_digits s : forallb isDigit s = true -> readSign s = (false, s).
Proof.
  destruct s as [|c s]; [reflexivity|].
  cbn [forallb]. intros H. apply andb_true_iff in H. destruct H as [Hc _].
  apply isDigit_range in Hc. unfold readSign. decide_tests. reflexivity.
Qed.

Lemma digits_not_Infinity s :
  forallb isDigit s = true -> eqb s (lit "Infinity") = false.
Proof.
  destruct s as [|c s]; [reflexivity|].
  cbn [forallb]. intros H. apply andb_true_iff in H. destruct H as [Hc _].
  apply isDigit_range in Hc.
  change (lit "Infinity") with (73 :: lit "nfinity"). cbn [eqb].
  decide_tests. reflexivity.
Qed.

Lemma ToNumber_digits s :
  s <> [] -> forallb isDigit s = true ->
  ToNumber s = Decimal false (decimalValue s) 0.
Proof.
  intros Hne H. unfold ToNumber. rewrite (trim_digits s H).
  destruct s as [|c s]; [congruence|].
  rewrite (parseNonDecimal_digits _ H), (readSign_digits _ H),
    (digits_not_Infinity _ H).
  unfold parseUnsignedDecimal. rewrite (readDigits_digits _ H).
  rewrite app_nil_r. reflexivity.
Qed.

Lemma digitsValue_zero : forall ds acc,
  fold_left (fun acc d => acc * 10 + d) ds acc = 0 <->
  acc = 0 /\ forallb (N.eqb 0) ds = true.
Proof.
  induction ds as [|d ds IH]; intros acc; cbn [fold_left forallb].
  - tauto.
  - rewrite IH, andb_true_iff, N.eqb_eq. intuition lia.
Qed.

Lemma forallb_mapped {A B} (g : A -> B) (f : B -> bool) s :
  forallb f (List.map g s) = forallb (fun x => f (g x)) s.
Proof.
  induction s as [|x s IH]; [reflexivity|].
  cbn [List.map forallb]. now rewrite IH.
Qed.

Lemma decimalValue_zero s :
  forallb isDigit s = true ->
  (decimalValue s =? 0) = forallb (N.eqb 48) s.
Proof.
  intros H. unfold decimalValue, digitsValue.
  apply eq_true_iff_eq. rewrite N.eqb_eq, digitsValue_zero.
  rewrite forallb_mapped. split.
  - intros [_ Hz]. rewrite forallb_forall in *. intros c Hc.
    specialize (Hz c Hc). specialize (H c Hc).
    apply isDigit_range in H. apply N.eqb_eq in Hz. apply N.eqb_eq. lia.
  - intros Hz. split; [reflexivity|].
    rewrite forallb_forall in *. intros c Hc.
    specialize (Hz c Hc). apply N.eqb_eq in Hz. subst c. reflexivity.
Qed.

(** A string of digits is turned down exactly when all its digits are
    zeros, whatever its length. *)
Lemma accepted_digits s :
  s <> [] -> forallb isDigit s = true ->
  accepted s = negb (forallb (N.eqb 48) s).
Proof.
  intros Hne H. unfold accepted. rewrite (ToNumber_digits s Hne H).
  unfold isNaN, leZero, roundsToZero.
  change (0 <? 0)%Z with false.
  rewrite orb_false_l, andb_false_l, orb_false_r.
  now rewrite decimalValue_zero.
Qed.

End DigitAmounts.

(** ** The composer *)

Section Composer.

Lemma createDynamicQRIS_unfold t a :
  createDynamicQRIS t a =
  if (length t <? 10)%nat then Err InvalidBaseData
  else if negb (accepted a) then Err InvalidAmount
  else if negb (length (split (processed t) anchor) =? 2)%nat
  then Err UnexpectedFormat
  else
    let parts := split (processed t) anchor in
    Ok (assemble (str (at_ parts 0)) a (str (at_ parts 1))
        ++ calculateCRC16 (assemble (str (at_ parts 0)) a (str (at_ parts 1)))).
Proof.
  unfold accepted. rewrite negb_involutive. reflexivity.
Qed.

Lemma createQRIS_unfold a t :
  createQRIS a t =
  let parts := split (processed t) anchor in
  assemble (str (at_ parts 0)) a (str (at_ parts 1))
  ++ calculateCRC16 (assemble (str (at_ parts 0)) a (str (at_ parts 1))).
Proof.
  unfold createQRIS. cbv zeta. rewrite convertCRC16_calculateCRC16.
  unfold assemble, amountField, lengthPrefix, processed, stripped.
  rewrite <- !app_assoc. reflexivity.
Qed.

(** What a successful call has established and produced. *)
Lemma createDynamicQRIS_Ok t a out :
  createDynamicQRIS t a = Ok out ->
  exists head tail,
    (10 <= length t)%nat /\ accepted a = true /\
    split (processed t) anchor = [head; tail] /\
    processed t = head ++ anchor ++ tail /\
    out = assemble head a tail ++ calculateCRC16 (assemble head a tail).
Proof.
  rewrite createDynamicQRIS_unfold.
  destruct (Nat.ltb_spec (length t) 10) as [|Hlen]; [discriminate|].
  destruct (accepted a) eqn:Ha; [|discriminate]. cbn [negb].
  destruct (Nat.eqb_spec (length (split (processed t) anchor)) 2) as [H2|];
    [|discriminate].
  cbn [negb]. cbv zeta.
  destruct (split_anchor_two _ H2) as (head & tail & Hsplit & Hp & _).
  rewrite Hsplit. cbn [at_ nth_error str]. intros H. injection H as <-.
  exists head, tail. repeat split; assumption || reflexivity.
Qed.

(** The three checks are all there is: past them a payload is composed. *)
Lemma createDynamicQRIS_succeeds t a :
  (10 <= length t)%nat -> accepted a = true ->
  occurrences anchor (stripped t) = 1%nat ->
  exists head tail,
    split (processed t) anchor = [head; tail] /\
    processed t = head ++ anchor ++ tail /\
    createDynamicQRIS t a =
    Ok (assemble head a tail ++ calculateCRC16 (assemble head a tail)).
Proof.
  intros Hlen Ha Hocc.
  assert (H2 : length (split (processed t) anchor) = 2%nat).
  { rewrite split_anchor_length. unfold processed.
    rewrite (proj1 (replace_counts _)), Hocc. reflexivity. }
  destruct (split_anchor_two _ H2) as (head & tail & Hsplit & Hp & _).
  exists head, tail. split; [exact Hsplit|]. split; [exact Hp|].
  rewrite createDynamicQRIS_unfold.
  destruct (Nat.ltb_spec (length t) 10); [lia|].
  rewrite Ha, H2, Hsplit. reflexivity.
Qed.

Lemma format_error_iff t a :
  (10 <= length t)%nat -> accepted a = true ->
  (createDynamicQRIS t a = Err UnexpectedFormat <->
   occurrences anchor (stripped t) <> 1%nat).
Proof.
  intros Hlen Ha. split.
  - intros H Hocc.
    destruct (createDynamicQRIS_succeeds t a Hlen Ha Hocc) as (? & ? & _ & _ & E).
    congruence.
  - intros Hocc. rewrite createDynamicQRIS_unfold.
    destruct (Nat.ltb_spec (length t) 10); [lia|].
    rewrite Ha. cbn [negb].
    rewrite split_anchor_length. unfold processed.
    rewrite (proj1 (replace_counts _)).
    destruct (Nat.eqb_spec (S (occurrences anchor (stripped t))) 2); [lia|].
    reflexivity.
Qed.

Lemma amount_error_iff t a :
  (10 <= length t)%nat ->
  (createDynamicQRIS t a = Err InvalidAmount <-> accepted a = false).
Proof.
  intros Hlen. rewrite createDynamicQRIS_unfold.
  destruct (Nat.ltb_spec (length t) 10); [lia|].
  destruct (accepted a); cbn [negb].
  - split; [|discriminate].
    destruct (negb _); discriminate.
  - split; reflexivity.
Qed.

Lemma assemble_length head a tail :
  length (assemble head a tail) =
  (length head + length (amountField a) + length anchor + length tail)%nat.
Proof. unfold assemble. rewrite !length_app. lia. Qed.

Lemma processed_length t : (4 <= length t)%nat ->
  length (processed t) = (length t - 4)%nat.
Proof.
  intros H. unfold processed, stripped.
  rewrite replace_length by reflexivity. now apply slice_strip_length.
Qed.

Lemma roundtrip body :
  calculateCRC16 (slice (body ++ calculateCRC16 body) 0 (Some (-4))) =
  slice (body ++ calculateCRC16 body) (-4) None.
Proof.
  rewrite slice_strip_app by apply calculateCRC16_length.
  change (-4) with (- Z.of_nat 4).
  rewrite slice_last_app; [reflexivity|apply calculateCRC16_length|lia].
Qed.

End Composer.

(** * Properties stated by the specification *)

(** ** C1 *)

(** C1. Round trip: whenever [createDynamicQRIS] composes a payload, the
    checksum recomputed over the payload without its last four characters is
    those four characters; the same holds for the payload of [createQRIS],
    which is composed for every input. *)
Theorem checksum_roundtrip t a out :
  createDynamicQRIS t a = Ok out ->
  calculateCRC16 (slice out 0 (Some (-4))) = slice out (-4) None /\
  convertCRC16 (slice (createQRIS a t) 0 (Some (-4))) =
    slice (createQRIS a t) (-4) None.
Proof.
  intros H.
  destruct (createDynamicQRIS_Ok t a out H) as (head & tail & _ & _ & _ & _ & ->).
  split; [apply roundtrip|].
  rewrite convertCRC16_calculateCRC16, createQRIS_unfold. apply roundtrip.
Qed.

Lemma checksum_roundtrip_witness :
  createDynamicQRIS example_template example_amount = Ok example_output /\
  calculateCRC16 (slice example_output 0 (Some (-4))) =
    slice example_output (-4) None.
Proof.
  assert (H : createDynamicQRIS example_template example_amount = Ok example_output)
    by (vm_compute; reflexivity).
  split; [exact H|].
  exact (proj1 (checksum_roundtrip example_template example_amount example_output H)).
Defined.

(** ** C2 *)

(** C2. Both checksum functions compute CRC-16/CCITT-FALSE as the
    specification describes it, on every string: the 32-bit arithmetic of
    the source, which never masks the character code nor the register,
    agrees with the masked 16-bit register on the low 16 bits. *)
Theorem checksum_is_crc16_ccitt_false s :
  calculateCRC16 s = Reference.compute_checksum s /\
  convertCRC16 s = Reference.compute_checksum s /\
  and (crcLoop s) 0xFFFF = Reference.register s.
Proof.
  split; [apply calculateCRC16_reference|].
  split; [rewrite convertCRC16_calculateCRC16; apply calculateCRC16_reference|].
  rewrite and_FFFF. apply crcLoop_register.
Qed.

(** ** C8 *)

(** C8. For every string the checksum is one value, four characters long,
    each of them an uppercase hexadecimal digit; this for both checksum
    functions. *)
Theorem checksum_well_formed s :
  (exists! h, h = calculateCRC16 s /\ length h = 4%nat /\
              forallb isUpperHex h = true) /\
  (exists! h, h = convertCRC16 s /\ length h = 4%nat /\
              forallb isUpperHex h = true).
Proof.
  split.
  - exists (calculateCRC16 s). split.
    + split; [reflexivity|].
      split; [apply calculateCRC16_length|apply calculateCRC16_upper].
    + intros h [-> _]. reflexivity.
  - exists (convertCRC16 s). split.
    + rewrite convertCRC16_calculateCRC16. split; [reflexivity|].
      split; [apply calculateCRC16_length|apply calculateCRC16_upper].
    + intros h [-> _]. reflexivity.
Qed.

(** ** C7 *)

(** C7. The payload of a successful composition is as long as head, amount
    field, anchor, tail and four characters of checksum together, which is
    the template's length minus 4 plus the amount field's length plus 4. *)
Theorem output_length t a out :
  createDynamicQRIS t a = Ok out ->
  exists head tail,
    split (processed t) anchor = [head; tail] /\
    length out =
      (length head + length (amountField a) + length anchor + length tail + 4)%nat /\
    Z.of_nat (length out) =
      Z.of_nat (length t) - 4 + Z.of_nat (length (amountField a)) + 4.
Proof.
  intros H.
  destruct (createDynamicQRIS_Ok t a out H)
    as (head & tail & Hlen & _ & Hsplit & Hp & ->).
  exists head, tail. split; [exact Hsplit|].
  rewrite length_app, calculateCRC16_length, assemble_length.
  split; [reflexivity|].
  assert (Hl : length (processed t) = (length t - 4)%nat)
    by (apply processed_length; lia).
  rewrite Hp, !length_app in Hl. lia.
Qed.

Lemma output_length_witness :
  createDynamicQRIS example_template example_amount = Ok example_output /\
  exists head tail,
    split (processed example_template) anchor = [head; tail] /\
    length example_output =
      (length head + length (amountField example_amount) + length anchor
       + length tail + 4)%nat /\
    Z.of_nat (length example_output) =
      Z.of_nat (length example_template) - 4
      + Z.of_nat (length (amountField example_amount)) + 4.
Proof.
  assert (H : createDynamicQRIS example_template example_amount = Ok example_output)
    by (vm_compute; reflexivity).
  split; [exact H|].
  exact (output_length example_template example_amount example_output H).
Defined.

(** ** C9 *)

(** C9 as it is stated fails: this template holds the anchor exactly once
    and the amount passes the amount check, but the anchor runs into the
    last four characters, so that [createDynamicQRIS] throws the
    unexpected-format error while [createQRIS] composes a payload. *)
Lemma composers_disagree_counterexample :
  ~ (occurrences anchor straddling_template = 1%nat ->
     accepted example_amount = true ->
     createDynamicQRIS straddling_template example_amount =
       Ok (createQRIS example_amount straddling_template)).
Proof.
  intros H.
  assert (E : createDynamicQRIS straddling_template example_amount =
              Ok (createQRIS example_amount straddling_template)).
  { apply H; vm_compute; reflexivity. }
  vm_compute in E. discriminate.
Qed.

(** C9, amended. On base data of at least ten characters in which the
    anchor occurs exactly once before the last four characters, and with an
    amount that passes the amount check, [createDynamicQRIS] composes a
    payload, and it is the payload [createQRIS] composes. *)
Theorem composers_agree t a :
  (10 <= length t)%nat -> occurrences anchor (stripped t) = 1%nat ->
  accepted a = true ->
  createDynamicQRIS t a = Ok (createQRIS a t).
Proof.
  intros Hlen Hocc Ha.
  destruct (createDynamicQRIS_succeeds t a Hlen Ha Hocc)
    as (head & tail & Hsplit & _ & E).
  rewrite E, createQRIS_unfold. cbv zeta. rewrite Hsplit. reflexivity.
Qed.

Lemma composers_agree_witness :
  (10 <= length example_template)%nat /\
  occurrences anchor (stripped example_template) = 1%nat /\
  accepted example_amount = true /\
  createDynamicQRIS example_template example_amount =
    Ok (createQRIS example_amount example_template).
Proof.
  assert (H1 : (10 <= length example_template)%nat) by (vm_compute; lia).
  assert (H2 : occurrences anchor (stripped example_template) = 1%nat)
    by (vm_compute; reflexivity).
  assert (H3 : accepted example_amount = true) by (vm_compute; reflexivity).
  split; [exact H1|]. split; [exact H2|]. split; [exact H3|].
  exact (composers_agree example_template example_amount H1 H2 H3).
Defined.

(** ** C10 *)



(** ** C3 *)

(** C3 as the specification states it fails: a template accepted by the
    composer that holds no static-mode marker goes through the mode switch
    unchanged, and its payload holds no dynamic-mode marker. *)
Lemma mode_switch_counterexample :
  ~ (forall out,
       createDynamicQRIS unmarked_template (lit "1000") = Ok out ->
       occurrences static_marker out = 0%nat /\
       occurrences dynamic_marker out = 1%nat).
Proof.
  intros H.
  assert (E : exists out,
             createDynamicQRIS unmarked_template (lit "1000") = Ok out /\
             occurrences dynamic_marker out = 0%nat)
    by (eexists; split; [vm_compute; reflexivity|vm_compute; reflexivity]).
  destruct E as (out & Hout & Hnone).
  destruct (H out Hout) as [_ Hone]. congruence.
Qed.

(** C3, amended. The mode switch replaces the first static-mode marker of
    the template without its last four characters, and only that one: with
    the amount field and the checksum left aside, the payload is the
    switched template, which either had no static marker and is unchanged,
    or has one static marker fewer and one dynamic marker more than
    before. *)
Theorem mode_switch_first_marker t a out :
  createDynamicQRIS t a = Ok out ->
  exists head tail,
    out = head ++ amountField a ++ anchor ++ tail
          ++ calculateCRC16 (assemble head a tail) /\
    head ++ anchor ++ tail = processed t /\
    ((occurrences static_marker (stripped t) = 0%nat /\
      processed t = stripped t) \/
     (occurrences static_marker (stripped t) =
        S (occurrences static_marker (processed t)) /\
      occurrences dynamic_marker (processed t) =
        S (occurrences dynamic_marker (stripped t)))).
Proof.
  intros H.
  destruct (createDynamicQRIS_Ok t a out H)
    as (head & tail & _ & _ & _ & Hp & ->).
  exists head, tail.
  split; [unfold assemble; now rewrite <- !app_assoc|].
  split; [now rewrite Hp|].
  destruct (Nat.eq_dec (occurrences static_marker (stripped t)) 0) as [E|E].
  - left. split; [exact E|]. now apply replace_absent.
  - right. exact (proj2 (replace_counts (stripped t)) E).
Qed.

Lemma mode_switch_first_marker_witness :
  createDynamicQRIS example_template example_amount = Ok example_output /\
  exists head tail,
    example_output =
      head ++ amountField example_amount ++ anchor ++ tail
      ++ calculateCRC16 (assemble head example_amount tail) /\
    head ++ anchor ++ tail = processed example_template /\
    ((occurrences static_marker (stripped example_template) = 0%nat /\
      processed example_template = stripped example_template) \/
     (occurrences static_marker (stripped example_template) =
        S (occurrences static_marker (processed example_template)) /\
      occurrences dynamic_marker (processed example_template) =
        S (occurrences dynamic_marker (stripped example_template)))).
Proof.
  assert (H : createDynamicQRIS example_template example_amount = Ok example_output)
    by (vm_compute; reflexivity).
  split; [exact H|].
  exact (mode_switch_first_marker example_template example_amount example_output H).
Defined.

(** ** C4 *)

(** C4 as the specification states it fails: the anchor occurs twice in
    this template, the second time across its last four characters, and the
    composer returns a payload. *)
Lemma anchor_count_counterexample :
  ~ (occurrences anchor overlapping_template <> 1%nat ->
     createDynamicQRIS overlapping_template (lit "1000") = Err UnexpectedFormat).
Proof.
  intros H.
  assert (E : createDynamicQRIS overlapping_template (lit "1000")
              = Err UnexpectedFormat).
  { apply H. vm_compute. discriminate. }
  vm_compute in E. discriminate.
Qed.

(** C4, amended. For base data of at least ten characters and an amount
    that passes the amount check, [createDynamicQRIS] fails with the
    unexpected-format error, and so returns no payload, exactly when the
    anchor does not occur exactly once in the template without its last
    four characters. *)
Theorem anchor_checked_before_checksum t a :
  (10 <= length t)%nat -> accepted a = true ->
  (createDynamicQRIS t a = Err UnexpectedFormat <->
   occurrences anchor (stripped t) <> 1%nat).
Proof. apply format_error_iff. Qed.

Lemma anchor_checked_before_checksum_witness :
  (10 <= length anchorless_template)%nat /\ accepted example_amount = true /\
  (createDynamicQRIS anchorless_template example_amount = Err UnexpectedFormat <->
   occurrences anchor (stripped anchorless_template) <> 1%nat).
Proof.
  assert (H1 : (10 <= length anchorless_template)%nat) by (vm_compute; lia).
  assert (H2 : accepted example_amount = true) by (vm_compute; reflexivity).
  split; [exact H1|]. split; [exact H2|].
  exact (anchor_checked_before_checksum anchorless_template example_amount H1 H2).
Defined.

(** ** C5 *)

(** C5 as the specification states it fails: an amount of one hundred
    digits is longer than 99 characters and is not rejected. *)
Lemma amount_length_counterexample :
  ~ (createDynamicQRIS example_template long_amount = Err InvalidAmount <->
     isNaN (ToNumber long_amount) = true \/
     leZero (ToNumber long_amount) = true \/
     (99 < length long_amount)%nat).
Proof.
  intros [_ H].
  assert (E : createDynamicQRIS example_template long_amount = Err InvalidAmount).
  { apply H. right. right. unfold long_amount. rewrite repeat_length. lia. }
  vm_compute in E. discriminate.
Qed.

(** C5, amended. For base data of at least ten characters,
    [createDynamicQRIS] rejects the amount with the invalid-amount error
    exactly when the amount is not a number or is not positive; its length
    is not looked at, so that an amount written in decimal digits, of any
    length, is rejected exactly when all its digits are zeros.  The answer
    does not depend on the template, whose processing and the formatting of
    the amount field come after. *)
Theorem amount_rejected_iff t a :
  (10 <= length t)%nat ->
  (createDynamicQRIS t a = Err InvalidAmount <->
   isNaN (ToNumber a) = true \/ leZero (ToNumber a) = true) /\
  (forall d, d <> [] -> forallb isDigit d = true ->
     (createDynamicQRIS t d = Err InvalidAmount <->
      forallb (N.eqb 48) d = true)).
Proof.
  intros Hlen. split.
  - rewrite (amount_error_iff t a Hlen).
    unfold accepted. rewrite negb_false_iff, orb_true_iff. reflexivity.
  - intros d Hne Hd.
    rewrite (amount_error_iff t d Hlen), (accepted_digits d Hne Hd).
    apply negb_false_iff.
Qed.

Lemma amount_rejected_iff_witness :
  (10 <= length example_template)%nat /\
  (createDynamicQRIS example_template (lit "0") = Err InvalidAmount <->
   isNaN (ToNumber (lit "0")) = true \/ leZero (ToNumber (lit "0")) = true).
Proof.
  assert (H1 : (10 <= length example_template)%nat) by (vm_compute; lia).
  split; [exact H1|].
  exact (proj1 (amount_rejected_iff example_template (lit "0") H1)).
Defined.

(** ** C6 *)

(** C6 as the specification states it fails: for the accepted amount of one
    hundred digits the two characters after "54" are "00", while the
    two-digit zero-padded decimal length is "100". *)
Lemma amount_field_counterexample :
  ~ (forall out head tail,
       createDynamicQRIS example_template long_amount = Ok out ->
       split (processed example_template) anchor = [head; tail] ->
       exists rest,
         out = head ++ (lit "54" ++ zeroPad2 (Z.of_nat (length long_amount))
                        ++ long_amount) ++ anchor ++ rest).
Proof.
  intros H.
  destruct (createDynamicQRIS_succeeds example_template long_amount)
    as (head & tail & Hsplit & _ & E); try (vm_compute; reflexivity).
  { vm_compute. lia. }
  destruct (H _ head tail E Hsplit) as [rest Hout].
  unfold assemble in Hout. rewrite <- !app_assoc in Hout.
  apply app_inv_head in Hout.
  apply (f_equal (firstn 3)) in Hout.
  lazy in Hout. discriminate.
Qed.

(** C6, amended. For every accepted amount of at most 99 characters the
    amount field is "54", the two-digit zero-padded decimal length of the
    amount string and the amount string, and it stands right after the head
    segment, right before the anchor; for the amount 15000 the field is
    "540515000". *)
Theorem amount_field_placement t a out :
  createDynamicQRIS t a = Ok out -> (length a < 100)%nat ->
  exists head tail,
    split (processed t) anchor = [head; tail] /\
    out = head ++ amountField a ++ anchor ++ tail
          ++ calculateCRC16 (assemble head a tail) /\
    amountField a = lit "54" ++ zeroPad2 (Z.of_nat (length a)) ++ a /\
    amountField (lit "15000") = lit "540515000".
Proof.
  intros H Hshort.
  destruct (createDynamicQRIS_Ok t a out H)
    as (head & tail & _ & _ & Hsplit & _ & ->).
  exists head, tail. split; [exact Hsplit|].
  split; [unfold assemble; now rewrite <- !app_assoc|].
  split; [|reflexivity].
  unfold amountField. now rewrite lengthPrefix_short.
Qed.

Lemma amount_field_placement_witness :
  createDynamicQRIS example_template example_amount = Ok example_output /\
  (length example_amount < 100)%nat /\
  exists head tail,
    split (processed example_template) anchor = [head; tail] /\
    example_output =
      head ++ amountField example_amount ++ anchor ++ tail
      ++ calculateCRC16 (assemble head example_amount tail) /\
    amountField example_amount =
      lit "54" ++ zeroPad2 (Z.of_nat (length example_amount)) ++ example_amount /\
    amountField (lit "15000") = lit "540515000".
Proof.
  assert (H : createDynamicQRIS example_template example_amount = Ok example_output)
    by (vm_compute; reflexivity).
  assert (H2 : (length example_amount < 100)%nat) by (vm_compute; lia).
  split; [exact H|]. split; [exact H2|].
  exact (amount_field_placement example_template example_amount example_output H H2).
Defined.

(** * Further properties of the code *)

(** ** What the checksum sees and what it detects *)

Section Detection.

Lemma feed_low_byte r c :
  Reference.feed r (c mod 256)%N = Reference.feed r c.
Proof.
  unfold Reference.feed. do 4 f_equal.
  change 0xFF with (Z.ones 8). rewrite !Z.land_ones by lia.
  rewrite N2Z.inj_mod. change (Z.of_N 256) with (2 ^ 8).
  apply Z.mod_mod. discriminate.
Qed.

Lemma register_low_bytes s : forall r,
  fold_left Reference.feed (List.map (fun c => (c mod 256)%N) s) r =
  fold_left Reference.feed s r.
Proof.
  induction s as [|c s IH]; intros r; [reflexivity|].
  cbn [List.map]. rewrite !fold_left_step, feed_low_byte. apply IH.
Qed.

Lemma round_range r : 0 <= Reference.round r < 65536.
Proof.
  unfold Reference.round, Reference.mask16.
  destruct (Z.testbit r 15); rewrite land_FFFF; apply low16_range.
Qed.

Lemma rounds_range n r :
  0 <= r < 65536 -> 0 <= Nat.iter n Reference.round r < 65536.
Proof.
  intros Hr. destruct n as [|n]; [exact Hr|].
  rewrite Nat.iter_succ. apply round_range.
Qed.

Lemma unround_all :
  allFrom (Z.to_nat 65536) 0 (fun r => unround (Reference.round r) =? r) = true.
Proof. vm_compute. reflexivity. Qed.

Lemma unround_round r : 0 <= r < 65536 -> unround (Reference.round r) = r.
Proof.
  intros Hr. apply Z.eqb_eq.
  apply (allFrom_spec _ _ 0 r unround_all). rewrite Z2Nat.id; lia.
Qed.

Lemma rounds_injective n : forall r r',
  0 <= r < 65536 -> 0 <= r' < 65536 ->
  Nat.iter n Reference.round r = Nat.iter n Reference.round r' -> r = r'.
Proof.
  induction n as [|n IH]; intros r r' Hr Hr' H; [exact H|].
  rewrite !Nat.iter_succ in H.
  apply IH; try assumption.
  rewrite <- (unround_round (Nat.iter n Reference.round r)),
    <- (unround_round (Nat.iter n Reference.round r'))
    by now apply rounds_range.
  now rewrite H.
Qed.

Lemma feed_range r c : 0 <= Reference.feed r c < 65536.
Proof.
  unfold Reference.feed. apply rounds_range.
  unfold Reference.mask16. rewrite land_FFFF. apply low16_range.
Qed.

Lemma high_byte_value c :
  Z.shiftl (Z.land (Z.of_N c) 0xFF) 8 = Z.of_N (c mod 256) * 256.
Proof.
  change 0xFF with (Z.ones 8). rewrite Z.land_ones, Z.shiftl_mul_pow2 by lia.
  rewrite N2Z.inj_mod. reflexivity.
Qed.

Lemma lxor_cancel a b c : Z.lxor a c = Z.lxor b c -> a = b.
Proof.
  intros H.
  rewrite <- (Z.lxor_0_r a), <- (Z.lxor_0_r b), <- (Z.lxor_nilpotent c).
  now rewrite <- !Z.lxor_assoc, H.
Qed.

Lemma lxor_cancel_l a b c : Z.lxor c a = Z.lxor c b -> a = b.
Proof. rewrite !(Z.lxor_comm c). apply lxor_cancel. Qed.

(** The register after a character determines the register before it. *)
Lemma feed_injective c r r' :
  0 <= r < 65536 -> 0 <= r' < 65536 ->
  Reference.feed r c = Reference.feed r' c -> r = r'.
Proof.
  intros Hr Hr' H. unfold Reference.feed, Reference.mask16 in H.
  rewrite !land_FFFF in H.
  apply rounds_injective in H; try apply low16_range.
  rewrite !low16_lxor in H. apply lxor_cancel in H.
  unfold low16 in H. rewrite !Z.mod_small in H by (change (2 ^ 16) with 65536; lia).
  exact H.
Qed.

(** Two characters with different low bytes lead to different registers. *)
Lemma feed_separates r c c' :
  (c mod 256 <> c' mod 256)%N -> Reference.feed r c <> Reference.feed r c'.
Proof.
  intros Hc H. apply Hc. unfold Reference.feed, Reference.mask16 in H.
  rewrite !land_FFFF in H.
  apply rounds_injective in H; try apply low16_range.
  rewrite !low16_lxor in H. apply lxor_cancel_l in H.
  rewrite !high_byte_value in H.
  assert (Hb : forall x : N, 0 <= Z.of_N (x mod 256) * 256 < 2 ^ 16).
  { intros x. assert (Hx : (x mod 256 < 256)%N) by (apply N.mod_lt; lia).
    change (2 ^ 16) with 65536. revert Hx.
    generalize (x mod 256)%N. intros n Hn. lia. }
  unfold low16 in H. rewrite !Z.mod_small in H by apply Hb.
  lia.
Qed.

Lemma fold_feed_range s : forall r,
  0 <= r < 65536 -> 0 <= fold_left Reference.feed s r < 65536.
Proof.
  induction s as [|c s IH]; intros r Hr; [exact Hr|].
  rewrite fold_left_step. apply IH, feed_range.
Qed.

Lemma fold_feed_injective s : forall r r',
  0 <= r < 65536 -> 0 <= r' < 65536 ->
  fold_left Reference.feed s r = fold_left Reference.feed s r' -> r = r'.
Proof.
  induction s as [|c s IH]; intros r r' Hr Hr' H; [exact H|].
  rewrite !fold_left_step in H.
  apply IH in H; try apply feed_range.
  now apply feed_injective in H.
Qed.

Lemma unhex4_all :
  allFrom (Z.to_nat 65536) 0 (fun r => unhex4 (Reference.hex4 r) =? r) = true.
Proof. vm_compute. reflexivity. Qed.

Lemma unhex4_hex4 r : 0 <= r < 65536 -> unhex4 (Reference.hex4 r) = r.
Proof.
  intros Hr. apply Z.eqb_eq.
  apply (allFrom_spec _ _ 0 r unhex4_all). rewrite Z2Nat.id; lia.
Qed.

Lemma register_range s : 0 <= Reference.register s < 65536.
Proof. apply fold_feed_range. lia. Qed.

Lemma checksum_register s : unhex4 (calculateCRC16 s) = Reference.register s.
Proof.
  rewrite calculateCRC16_reference. unfold Reference.compute_checksum.
  unfold Reference.mask16. rewrite land_FFFF.
  pose proof (register_range s).
  unfold low16. rewrite Z.mod_small by (change (2 ^ 16) with 65536; lia).
  now apply unhex4_hex4.
Qed.

End Detection.

(** X1. Both checksum functions read only the low byte of every code unit:
    replacing each character by its code modulo 256 leaves the checksum
    unchanged. *)
Theorem checksum_ignores_high_byte s :
  calculateCRC16 (List.map (fun c => (c mod 256)%N) s) = calculateCRC16 s /\
  convertCRC16 (List.map (fun c => (c mod 256)%N) s) = convertCRC16 s.
Proof.
  assert (E : calculateCRC16 (List.map (fun c => (c mod 256)%N) s)
              = calculateCRC16 s).
  { rewrite !calculateCRC16_reference.
    unfold Reference.compute_checksum, Reference.register.
    now rewrite register_low_bytes. }
  split; [exact E|].
  rewrite (convertCRC16_calculateCRC16 s),
    (convertCRC16_calculateCRC16 (List.map (fun c => (c mod 256)%N) s)).
  exact E.
Qed.

(** X2. The checksum detects the substitution of one character: two strings
    that differ in a single position, by characters with different low
    bytes, have different checksums. *)
Theorem checksum_detects_substitution pre c c' post :
  (c mod 256 <> c' mod 256)%N ->
  calculateCRC16 (pre ++ c :: post) <> calculateCRC16 (pre ++ c' :: post) /\
  convertCRC16 (pre ++ c :: post) <> convertCRC16 (pre ++ c' :: post).
Proof.
  intros Hc.
  assert (E : calculateCRC16 (pre ++ c :: post)
              <> calculateCRC16 (pre ++ c' :: post)).
  { intros H. apply (f_equal unhex4) in H. rewrite !checksum_register in H.
    unfold Reference.register in H.
    rewrite !fold_left_app, !fold_left_step in H.
    apply fold_feed_injective in H; try apply feed_range.
    now apply (feed_separates _ c c') in H. }
  split; [exact E|].
  rewrite (convertCRC16_calculateCRC16 (pre ++ c :: post)),
    (convertCRC16_calculateCRC16 (pre ++ c' :: post)).
  exact E.
Qed.

Lemma checksum_detects_substitution_witness :
  (49 mod 256 <> 57 mod 256)%N /\
  calculateCRC16 (lit "00020101021226570011ID.DANA.WWW5405" ++ 49%N
                  :: lit "50005802ID5303360")
  <> calculateCRC16 (lit "00020101021226570011ID.DANA.WWW5405" ++ 57%N
                     :: lit "50005802ID5303360").
Proof.
  assert (H : (49 mod 256 <> 57 mod 256)%N) by (vm_compute; discriminate).
  split; [exact H|].
  exact (proj1 (checksum_detects_substitution
                  (lit "00020101021226570011ID.DANA.WWW5405") 49%N 57%N
                  (lit "50005802ID5303360") H)).
Defined.

(** ** When a payload is composed, and what the older composer does instead
    of failing *)

Section Edges.

Lemma occurrences_pos_indexOf pat s :
  occurrences pat s <> 0%nat -> exists i, indexOf pat s = Some i.
Proof.
  intros H. destruct (indexOf pat s) as [i|] eqn:E; [now exists i|].
  elim H. now apply indexOf_None_occurrences.
Qed.

Lemma split_anchor_none s :
  occurrences anchor s = 0%nat -> split s anchor = [s].
Proof.
  intros H. change anchor with (53%N :: lit "802ID").
  rewrite split_unfold.
  change (53%N :: lit "802ID") with anchor.
  now rewrite (occurrences_0_indexOf anchor s H).
Qed.

Lemma startsWith_firstn_mono pat : forall n s,
  startsWith pat (firstn n s) = true -> startsWith pat s = true.
Proof.
  induction pat as [|p pat IH]; intros n s H; [reflexivity|].
  destruct n as [|n]; [discriminate|].
  destruct s as [|c s]; [discriminate|].
  cbn [firstn startsWith] in H |- *.
  apply andb_true_iff in H. destruct H as [Hc Hs].
  rewrite Hc. exact (IH n s Hs).
Qed.

(** Nothing matches before the first match. *)
Lemma indexOf_first p pat : forall s i,
  indexOf (p :: pat) s = Some i -> occurrences (p :: pat) (firstn i s) = 0%nat.
Proof.
  induction s as [|c s IH]; intros i H; [discriminate|].
  rewrite indexOf_step in H.
  destruct (startsWith (p :: pat) (c :: s)) eqn:E.
  - injection H as <-. reflexivity.
  - destruct (indexOf (p :: pat) s) as [j|] eqn:Ej; [|discriminate].
    injection H as <-.
    change (firstn (S j) (c :: s)) with (c :: firstn j s).
    rewrite occurrences_step, (IH j eq_refl).
    destruct (startsWith (p :: pat) (c :: firstn j s)) eqn:E'; [|reflexivity].
    change (c :: firstn j s) with (firstn (S j) (c :: s)) in E'.
    apply startsWith_firstn_mono in E'. congruence.
Qed.

(** With two anchors or more the split starts with the piece before the
    first anchor and the piece between the first two. *)
Lemma split_anchor_many s :
  (2 <= occurrences anchor s)%nat ->
  exists head mid rest pieces,
    s = head ++ anchor ++ mid ++ anchor ++ rest /\
    occurrences anchor head = 0%nat /\ occurrences anchor mid = 0%nat /\
    split s anchor = head :: mid :: pieces.
Proof.
  intros H.
  destruct (occurrences_pos_indexOf anchor s) as [i Ei]; [lia|].
  pose proof (indexOf_anchor_count s i Ei) as Hc.
  pose proof (indexOf_Some _ _ _ Ei) as [Hs _].
  change (length anchor) with 6%nat in Hs.
  remember (skipn (i + 6) s) as s1 eqn:Hs1.
  destruct (occurrences_pos_indexOf anchor s1) as [j Ej]; [lia|].
  pose proof (indexOf_Some _ _ _ Ej) as [Hs2 _].
  change (length anchor) with 6%nat in Hs2.
  exists (firstn i s), (firstn j s1), (skipn (j + 6) s1),
    (split (skipn (j + 6) s1) anchor).
  split; [rewrite Hs at 1; rewrite Hs2 at 1; reflexivity|].
  split; [exact (indexOf_first 53%N _ s i Ei)|].
  split; [exact (indexOf_first 53%N _ s1 j Ej)|].
  change anchor with (53%N :: lit "802ID").
  rewrite split_unfold. change (53%N :: lit "802ID") with anchor.
  rewrite Ei. change (length anchor) with 6%nat. rewrite <- Hs1.
  change anchor with (53%N :: lit "802ID").
  rewrite split_unfold. change (53%N :: lit "802ID") with anchor.
  rewrite Ej. reflexivity.
Qed.

(** [createQRIS] when the split gives a single piece. *)
Lemma createQRIS_single_piece a t :
  occurrences anchor (processed t) = 0%nat ->
  createQRIS a t =
  (processed t ++ amountField a ++ anchor ++ lit "undefined")
  ++ calculateCRC16 (processed t ++ amountField a ++ anchor ++ lit "undefined").
Proof.
  intros H. rewrite createQRIS_unfold. cbv zeta.
  rewrite split_anchor_none by exact H. reflexivity.
Qed.

Lemma createDynamicQRIS_base_error t a :
  createDynamicQRIS t a = Err InvalidBaseData <-> (length t < 10)%nat.
Proof.
  rewrite createDynamicQRIS_unfold.
  destruct (Nat.ltb_spec (length t) 10) as [Hlt|Hge]; [tauto|].
  split; [|lia].
  destruct (negb (accepted a)); [discriminate|].
  destruct (negb _); discriminate.
Qed.

End Edges.

(** X3. [createDynamicQRIS] composes a payload exactly when the base data
    has at least ten characters, the amount is a positive number and the
    anchor occurs exactly once in the base data without its last four
    characters; base data under ten characters is reported as invalid base
    data whatever the amount. *)
Theorem composition_succeeds_iff t a :
  ((exists out, createDynamicQRIS t a = Ok out) <->
   (10 <= length t)%nat /\ accepted a = true /\
   occurrences anchor (stripped t) = 1%nat) /\
  (createDynamicQRIS t a = Err InvalidBaseData <-> (length t < 10)%nat).
Proof.
  split; [|apply createDynamicQRIS_base_error].
  split.
  - intros [out H].
    destruct (createDynamicQRIS_Ok t a out H)
      as (head & tail & Hlen & Ha & Hsplit & _ & _).
    split; [exact Hlen|]. split; [exact Ha|].
    apply (f_equal (@length jsstring)) in Hsplit.
    rewrite split_anchor_length in Hsplit. unfold processed in Hsplit.
    rewrite (proj1 (replace_counts _)) in Hsplit.
    cbn [length] in Hsplit. lia.
  - intros (Hlen & Ha & Hocc).
    destruct (createDynamicQRIS_succeeds t a Hlen Ha Hocc)
      as (head & tail & _ & _ & E).
    eexists. exact E.
Qed.

(** X4. [createQRIS] does not fail on a template without the anchor: it
    appends the amount field and the anchor to the whole switched template
    and then the text "undefined", and checksums the result. *)
Theorem createQRIS_without_anchor a t :
  occurrences anchor (stripped t) = 0%nat ->
  createQRIS a t =
  (processed t ++ amountField a ++ anchor ++ lit "undefined")
  ++ calculateCRC16 (processed t ++ amountField a ++ anchor ++ lit "undefined").
Proof.
  intros H. apply createQRIS_single_piece.
  unfold processed. now rewrite (proj1 (replace_counts _)).
Qed.

Lemma createQRIS_without_anchor_witness :
  occurrences anchor (stripped anchorless_template) = 0%nat /\
  createQRIS example_amount anchorless_template =
  (processed anchorless_template ++ amountField example_amount ++ anchor
   ++ lit "undefined")
  ++ calculateCRC16 (processed anchorless_template ++ amountField example_amount
                     ++ anchor ++ lit "undefined").
Proof.
  assert (H : occurrences anchor (stripped anchorless_template) = 0%nat)
    by (vm_compute; reflexivity).
  split; [exact H|].
  exact (createQRIS_without_anchor example_amount anchorless_template H).
Defined.

(** X5. [createQRIS] does not fail on a template with two anchors or more
    either: it keeps what is before the second anchor, with the amount field
    before the first anchor, and drops the second anchor and everything
    after it. *)
Theorem createQRIS_drops_after_second_anchor a t :
  (2 <= occurrences anchor (stripped t))%nat ->
  exists head mid rest,
    processed t = head ++ anchor ++ mid ++ anchor ++ rest /\
    occurrences anchor head = 0%nat /\ occurrences anchor mid = 0%nat /\
    createQRIS a t =
      assemble head a mid ++ calculateCRC16 (assemble head a mid).
Proof.
  intros H.
  destruct (split_anchor_many (processed t))
    as (head & mid & rest & pieces & Hp & Hh & Hm & Hsplit).
  { unfold processed. now rewrite (proj1 (replace_counts _)). }
  exists head, mid, rest.
  split; [exact Hp|]. split; [exact Hh|]. split; [exact Hm|].
  rewrite createQRIS_unfold. cbv zeta. rewrite Hsplit. reflexivity.
Qed.

Lemma createQRIS_drops_after_second_anchor_witness :
  (2 <= occurrences anchor (stripped twice_anchored_template))%nat /\
  exists head mid rest,
    processed twice_anchored_template = head ++ anchor ++ mid ++ anchor ++ rest /\
    occurrences anchor head = 0%nat /\ occurrences anchor mid = 0%nat /\
    createQRIS example_amount twice_anchored_template =
      assemble head example_amount mid
      ++ calculateCRC16 (assemble head example_amount mid).
Proof.
  assert (H : (2 <= occurrences anchor (stripped twice_anchored_template))%nat)
    by (vm_compute; lia).
  split; [exact H|].
  exact (createQRIS_drops_after_second_anchor example_amount
           twice_anchored_template H).
Defined.

(** X6. [generateQRIS] never composes a scannable payload from the
    placeholder template it is written with: for every amount the payload is
    "code qri", the amount field, the anchor and the text "undefined",
    followed by the checksum of that. *)
Theorem generateQRIS_placeholder a :
  generateQRIS a =
  (lit "code qri" ++ amountField a ++ anchor ++ lit "undefined")
  ++ calculateCRC16 (lit "code qri" ++ amountField a ++ anchor ++ lit "undefined").
Proof.
  assert (E : generateQRIS a = createQRIS a (lit "code qris lu")) by reflexivity.
  rewrite E. apply createQRIS_single_piece. vm_compute. reflexivity.
Qed.

(** ** Transaction identifiers *)

Section Identifiers.

Local Open Scope N_scope.

Lemma app_inj_length {A} (a a' b b' : list A) :
  a ++ b = a' ++ b' -> length b = length b' -> a = a' /\ b = b'.
Proof.
  revert a'. induction a as [|x a IH]; intros [|x' a'] H Hl; cbn [app] in H.
  - now split.
  - apply (f_equal (@length A)) in H. cbn [length] in H.
    rewrite length_app in H. lia.
  - apply (f_equal (@length A)) in H. cbn [length] in H.
    rewrite length_app in H. lia.
  - injection H as -> H. destruct (IH a' H Hl) as [-> ->]. now split.
Qed.

Lemma upper_hex_digit d :
  d < 16 -> upperChar (digitChar d) = if d <? 10 then 48 + d else 55 + d.
Proof.
  intros Hd. unfold upperChar, digitChar.
  destruct (N.ltb_spec d 10).
  - destruct (N.leb_spec 97 (48 + d)); [lia|reflexivity].
  - destruct (N.leb_spec 97 (97 + (d - 10))); [|lia].
    destruct (N.leb_spec (97 + (d - 10)) 122); [|lia].
    cbn [andb]. lia.
Qed.

Lemma upper_hex_digit_injective d d' :
  d < 16 -> d' < 16 ->
  upperChar (digitChar d) = upperChar (digitChar d') -> d = d'.
Proof.
  intros Hd Hd'. rewrite !upper_hex_digit by assumption.
  destruct (N.ltb_spec d 10), (N.ltb_spec d' 10); lia.
Qed.

Lemma toHex_step b buf :
  toUpperCase (Node.toHex (b :: buf)) =
  upperChar (digitChar (Byte.to_N b / 16))
  :: upperChar (digitChar (Byte.to_N b mod 16))
  :: toUpperCase (Node.toHex buf).
Proof. reflexivity. Qed.

Lemma byte_halves b b' :
  Byte.to_N b / 16 = Byte.to_N b' / 16 ->
  Byte.to_N b mod 16 = Byte.to_N b' mod 16 -> b = b'.
Proof.
  intros Hq Hr.
  assert (E : Byte.to_N b = Byte.to_N b').
  { rewrite (N.div_mod (Byte.to_N b) 16), (N.div_mod (Byte.to_N b') 16) by lia.
    now rewrite Hq, Hr. }
  pose proof (Byte.of_to_N b) as H1. pose proof (Byte.of_to_N b') as H2.
  rewrite E in H1. congruence.
Qed.

Lemma byte_half_ranges b : Byte.to_N b / 16 < 16 /\ Byte.to_N b mod 16 < 16.
Proof.
  pose proof (Byte.to_N_bounded b). split.
  - apply N.Div0.div_lt_upper_bound. lia.
  - apply N.mod_lt. lia.
Qed.

(** The hexadecimal text determines the buffer. *)
Lemma toHex_injective : forall buf buf',
  toUpperCase (Node.toHex buf) = toUpperCase (Node.toHex buf') -> buf = buf'.
Proof.
  induction buf as [|b buf IH]; intros [|b' buf'] H; try reflexivity;
    rewrite ?toHex_step in H; try discriminate.
  injection H as Hq Hr H.
  destruct (byte_half_ranges b), (byte_half_ranges b').
  apply upper_hex_digit_injective in Hq, Hr; try assumption.
  f_equal; [now apply byte_halves|now apply IH].
Qed.

Lemma toHex_length buf :
  length (toUpperCase (Node.toHex buf)) = (2 * length buf)%nat.
Proof.
  induction buf as [|b buf IH]; [reflexivity|].
  rewrite toHex_step. cbn [length]. lia.
Qed.

Lemma decimalValue_snoc l c :
  decimalValue (l ++ [c]) = decimalValue l * 10 + (c - 48).
Proof.
  unfold decimalValue, digitsValue.
  rewrite map_app, fold_left_app. reflexivity.
Qed.

Lemma digitChar_decimal d : d < 10 -> digitChar d = 48 + d.
Proof. intros H. unfold digitChar. now destruct (N.ltb_spec d 10); [|lia]. Qed.

Lemma digitChar_isDigit d : d < 10 -> isDigit (digitChar d) = true.
Proof.
  intros H. rewrite digitChar_decimal by exact H. unfold isDigit.
  apply andb_true_iff. split; apply N.leb_le; lia.
Qed.

(** Decimal printing can be read back, and prints digits only. *)
Lemma natToString_decimal n :
  decimalValue (natToString 10 n) = n /\
  forallb isDigit (natToString 10 n) = true /\ natToString 10 n <> [].
Proof.
  induction n as [n IH] using (well_founded_induction N.lt_wf_0).
  rewrite natToString_unfold by lia.
  assert (Hm : n mod 10 < 10) by (apply N.mod_lt; lia).
  assert (Hd : isDigit (digitChar (n mod 10)) = true)
    by (apply digitChar_isDigit, Hm).
  destruct (N.eqb_spec (n / 10) 0) as [Hq|Hq].
  - split; [|split; [cbn [forallb]; now rewrite Hd|discriminate]].
    unfold decimalValue, digitsValue. cbn [List.map fold_left].
    rewrite digitChar_decimal by exact Hm.
    apply N.div_small_iff in Hq; [|lia].
    rewrite (N.mod_small n 10) by exact Hq. lia.
  - destruct (IH (n / 10)) as (Hv & Hds & Hne).
    { apply N.div_lt; [|lia].
      destruct (N.eq_dec n 0) as [->|]; [now elim Hq|lia]. }
    split; [|split].
    + rewrite decimalValue_snoc, Hv, digitChar_decimal by exact Hm.
      assert (E : n = 10 * (n / 10) + n mod 10) by (apply N.div_mod; lia).
      revert E. generalize (n / 10) (n mod 10). intros q m E. lia.
    + rewrite forallb_app, Hds. cbn [forallb]. now rewrite Hd.
    + intros E. apply app_eq_nil in E. now destruct E.
Qed.

Lemma natToString_injective n m :
  natToString 10 n = natToString 10 m -> n = m.
Proof.
  intros H.
  rewrite <- (proj1 (natToString_decimal n)), <- (proj1 (natToString_decimal m)).
  now rewrite H.
Qed.

Lemma natToString_no_sign n s : natToString 10 n <> 45 :: s.
Proof.
  intros H. pose proof (proj1 (proj2 (natToString_decimal n))) as Hd.
  rewrite H in Hd. discriminate.
Qed.

Lemma toString_injective (z z' : Z) :
  toString 10 z = toString 10 z' -> z = z'.
Proof.
  unfold toString.
  destruct (Z.ltb_spec z 0) as [Hz|Hz], (Z.ltb_spec z' 0) as [Hz'|Hz'];
    intros H.
  - injection H as H. apply natToString_injective in H. lia.
  - symmetry in H. now apply natToString_no_sign in H.
  - now apply natToString_no_sign in H.
  - apply natToString_injective in H. lia.
Qed.

Lemma generateTransactionId_injective ts ts' r r' :
  length r = length r' ->
  Orderkuota.generateTransactionId ts r = Orderkuota.generateTransactionId ts' r' ->
  ts = ts' /\ r = r'.
Proof.
  intros Hl H. unfold Orderkuota.generateTransactionId in H. cbv zeta in H.
  apply app_inv_head in H. rewrite !app_assoc in H.
  apply app_inj_length in H; [|rewrite !toHex_length; lia].
  destruct H as [Ht Hr].
  apply app_inv_tail in Ht.
  split; [now apply toString_injective|now apply toHex_injective].
Qed.

End Identifiers.

(** X7. The identifier of [orderkuota.js] determines the clock value and
    the four random bytes it was built from: two calls that differ in the
    clock value or in the random bytes give different identifiers. *)
Theorem transaction_id_distinct ts ts' r r' :
  length r = 4%nat -> length r' = 4%nat ->
  ts <> ts' \/ r <> r' ->
  Orderkuota.generateTransactionId ts r <> Orderkuota.generateTransactionId ts' r'.
Proof.
  intros Hr Hr' Hd H.
  apply generateTransactionId_injective in H; [|congruence].
  destruct H as [Ht Hb]. destruct Hd as [Hd|Hd]; contradiction.
Qed.

Lemma transaction_id_distinct_witness :
  length [Byte.x3f; Byte.xa0; Byte.x07; Byte.xee] = 4%nat /\
  length [Byte.x3f; Byte.xa0; Byte.x07; Byte.xef] = 4%nat /\
  Orderkuota.generateTransactionId 1700000000000
    [Byte.x3f; Byte.xa0; Byte.x07; Byte.xee]
  <> Orderkuota.generateTransactionId 1700000000000
       [Byte.x3f; Byte.xa0; Byte.x07; Byte.xef].
Proof.
  split; [reflexivity|]. split; [reflexivity|].
  apply (transaction_id_distinct 1700000000000 1700000000000
           [Byte.x3f; Byte.xa0; Byte.x07; Byte.xee]
           [Byte.x3f; Byte.xa0; Byte.x07; Byte.xef]);
    [reflexivity|reflexivity|].
  right. discriminate.
Defined.

(** X8. The identifier of the older route file is thirteen characters long
    and is determined by its two random bytes alone: two identifiers are
    equal exactly when the random bytes are, so that no more than 65536
    identifiers exist. *)
Theorem legacy_transaction_id r r' :
  length r = 2%nat ->
  length (Legacy.generateTransactionId r) = 13%nat /\
  (Legacy.generateTransactionId r = Legacy.generateTransactionId r' <-> r = r').
Proof.
  intros Hr. split.
  - unfold Legacy.generateTransactionId.
    rewrite length_app, toHex_length, Hr. reflexivity.
  - split; [|now intros ->].
    unfold Legacy.generateTransactionId. intros H.
    apply app_inv_head in H. now apply toHex_injective.
Qed.

Lemma legacy_transaction_id_witness :
  length [Byte.x3f; Byte.xa0] = 2%nat /\
  length (Legacy.generateTransactionId [Byte.x3f; Byte.xa0]) = 13%nat /\
  (Legacy.generateTransactionId [Byte.x3f; Byte.xa0]
   = Legacy.generateTransactionId [Byte.x3f; Byte.xa1] <->
   [Byte.x3f; Byte.xa0] = [Byte.x3f; Byte.xa1]).
Proof.
  split; [reflexivity|].
  exact (legacy_transaction_id [Byte.x3f; Byte.xa0] [Byte.x3f; Byte.xa1] eq_refl).
Defined.

(** ** Composing on a payload that was composed before *)

Section Recomposition.

Lemma anchor_tail_chars l :
  startsWith anchor l = true ->
  nth_error l 4 = Some 73%N /\ nth_error l 5 = Some 68%N.
Proof.
  intros H. apply startsWith_skipn in H. rewrite H. split; reflexivity.
Qed.

Lemma digits_nth w i c :
  forallb isDigit w = true -> nth_error w i = Some c -> isDigit c = true.
Proof.
  intros Hw Hc. rewrite forallb_forall in Hw.
  apply Hw. eapply nth_error_In, Hc.
Qed.

(** No anchor starts inside a run of five digits or more. *)
Lemma digit_run_no_anchor w r :
  (5 <= length w)%nat -> forallb isDigit w = true ->
  startsWith anchor (w ++ r) = false.
Proof.
  intros Hl Hw. destruct (startsWith anchor (w ++ r)) eqn:E; [|reflexivity].
  apply anchor_tail_chars in E. destruct E as [E _].
  rewrite nth_error_app1 in E by lia.
  apply (digits_nth w 4 73%N Hw) in E. discriminate.
Qed.

Lemma anchor_digits : forallb isDigit (lit "5802") = true.
Proof. reflexivity. Qed.

Lemma occurrences_digits_anchor : forall e r,
  forallb isDigit e = true ->
  occurrences anchor (e ++ anchor ++ r) = occurrences anchor (anchor ++ r).
Proof.
  induction e as [|d e IH]; intros r He; [reflexivity|].
  cbn [forallb] in He. apply andb_true_iff in He. destruct He as [Hd He].
  cbn [app]. rewrite occurrences_step, (IH r He).
  change (d :: e ++ anchor ++ r)
    with ((d :: e) ++ (lit "5802" ++ lit "ID") ++ r).
  rewrite <- (app_assoc (lit "5802")), (app_assoc (d :: e)).
  rewrite digit_run_no_anchor; [reflexivity| |].
  - rewrite length_app. change (length (lit "5802")) with 4%nat.
    cbn [length]. lia.
  - rewrite forallb_app. cbn [forallb]. now rewrite Hd, He.
Qed.

(** A non-empty run of digits put right before an anchor neither adds nor
    removes an anchor. *)
Lemma occurrences_insert_digits : forall h e r,
  e <> [] -> forallb isDigit e = true ->
  occurrences anchor (h ++ e ++ anchor ++ r) =
  occurrences anchor (h ++ anchor ++ r).
Proof.
  induction h as [|c h IH]; intros e r Hne He.
  - now apply occurrences_digits_anchor.
  - cbn [app]. rewrite !occurrences_step, (IH e r Hne He). f_equal.
    destruct (Nat.le_gt_cases 6 (length (c :: h))) as [Hlong|Hshort].
    + rewrite <- (startsWith_firstn anchor (c :: h ++ e ++ anchor ++ r)),
        <- (startsWith_firstn anchor (c :: h ++ anchor ++ r)).
      change (length anchor) with 6%nat.
      change (c :: h ++ ?x) with ((c :: h) ++ x).
      rewrite !firstn_app.
      replace (6 - length (c :: h))%nat with 0%nat by lia. reflexivity.
    + assert (Hl : startsWith anchor ((c :: h) ++ e ++ anchor ++ r) = false).
      { destruct (startsWith anchor ((c :: h) ++ e ++ anchor ++ r)) eqn:E;
          [|reflexivity].
        apply anchor_tail_chars in E. destruct E as [_ E].
        rewrite nth_error_app2 in E by lia.
        change (e ++ anchor ++ r)
          with (e ++ (lit "5802" ++ lit "ID") ++ r) in E.
        rewrite <- (app_assoc (lit "5802")), (app_assoc e) in E.
        assert (Hw : forallb isDigit (e ++ lit "5802") = true)
          by (rewrite forallb_app, He; reflexivity).
        rewrite nth_error_app1 in E.
        - apply (digits_nth _ _ 68%N Hw) in E. discriminate.
        - rewrite length_app. change (length (lit "5802")) with 4%nat.
          destruct e; [congruence|]. cbn [length] in *. lia. }
      assert (Hr : startsWith anchor ((c :: h) ++ anchor ++ r) = false).
      { destruct (startsWith anchor ((c :: h) ++ anchor ++ r)) eqn:E;
          [|reflexivity].
        apply anchor_tail_chars in E. destruct E as [_ E].
        rewrite nth_error_app2 in E by lia.
        rewrite nth_error_app1 in E
          by (change (length anchor) with 6%nat; cbn [length] in *; lia).
        cbn [length] in Hshort, E.
        destruct (length h) as [|[|[|[|[|k]]]]]; try discriminate; lia. }
      cbn [app] in Hl, Hr. now rewrite Hl, Hr.
Qed.

Lemma lengthPrefix_isDigit a : forallb isDigit (lengthPrefix a) = true.
Proof.
  rewrite lengthPrefix_digits. cbn [forallb].
  rewrite !digitChar_isDigit; [reflexivity|apply N.mod_lt; lia..].
Qed.

Lemma amountField_isDigit a :
  forallb isDigit a = true -> forallb isDigit (amountField a) = true.
Proof.
  intros H. unfold amountField.
  now rewrite !forallb_app, lengthPrefix_isDigit, H.
Qed.

Lemma amountField_length a :
  length (amountField a) = (4 + length a)%nat.
Proof.
  unfold amountField. rewrite !length_app, lengthPrefix_digits. reflexivity.
Qed.

End Recomposition.

(** X9. [createDynamicQRIS] does not notice an amount field that is there
    already: a payload it composed with an amount of decimal digits is
    accepted as base data again, with any amount that passes the amount
    check, and the new payload is longer by the second amount field. *)
Theorem composition_repeats t a a' out :
  createDynamicQRIS t a = Ok out ->
  forallb isDigit a = true -> accepted a' = true ->
  exists out',
    createDynamicQRIS out a' = Ok out' /\
    length out' = (length out + length (amountField a'))%nat.
Proof.
  intros H Ha Ha'.
  destruct (createDynamicQRIS_Ok t a out H)
    as (head & tail & _ & _ & Hsplit & Hp & ->).
  set (body := assemble head a tail).
  assert (Hcrc : length (calculateCRC16 body) = 4%nat)
    by apply calculateCRC16_length.
  assert (Hbody : stripped (body ++ calculateCRC16 body) = body)
    by (apply slice_strip_app, Hcrc).
  assert (Hlen : (10 <= length (body ++ calculateCRC16 body))%nat).
  { rewrite length_app, Hcrc. unfold body.
    rewrite assemble_length, amountField_length.
    change (length anchor) with 6%nat. lia. }
  assert (Hocc : occurrences anchor (stripped (body ++ calculateCRC16 body))
                 = 1%nat).
  { rewrite Hbody. unfold body, assemble.
    rewrite occurrences_insert_digits.
    - rewrite <- Hp. apply (f_equal (@length jsstring)) in Hsplit.
      rewrite split_anchor_length in Hsplit. cbn [length] in Hsplit. lia.
    - intros E. apply (f_equal (@length N)) in E.
      rewrite amountField_length in E. discriminate.
    - now apply amountField_isDigit. }
  destruct (createDynamicQRIS_succeeds _ a' Hlen Ha' Hocc)
    as (head' & tail' & _ & Hp' & E).
  eexists. split; [exact E|].
  assert (Hl : length (processed (body ++ calculateCRC16 body))
               = (length (body ++ calculateCRC16 body) - 4)%nat)
    by (apply processed_length; lia).
  rewrite Hp', !length_app in Hl.
  rewrite !length_app, calculateCRC16_length, assemble_length.
  rewrite length_app in Hlen. lia.
Qed.

Lemma composition_repeats_witness :
  createDynamicQRIS example_template example_amount = Ok example_output /\
  forallb isDigit example_amount = true /\ accepted (lit "2500") = true /\
  exists out',
    createDynamicQRIS example_output (lit "2500") = Ok out' /\
    length out' = (length example_output + length (amountField (lit "2500")))%nat.
Proof.
  assert (H : createDynamicQRIS example_template example_amount = Ok example_output)
    by (vm_compute; reflexivity).
  assert (H1 : forallb isDigit example_amount = true) by (vm_compute; reflexivity).
  assert (H2 : accepted (lit "2500") = true) by (vm_compute; reflexivity).
  split; [exact H|]. split; [exact H1|]. split; [exact H2|].
  exact (composition_repeats example_template example_amount (lit "2500")
           example_output H H1 H2).
Defined.

(** ** Amounts that are always turned down, and base data that is not read *)

Section Rejections.

Lemma trimStart_snoc x : isWhiteSpace x = false ->
  forall l, trimStart (l ++ [x]) = trimStart l ++ [x].
Proof.
  intros Hx. induction l as [|c l IH]; cbn [app trimStart].
  - now rewrite Hx.
  - destruct (isWhiteSpace c); [exact IH|reflexivity].
Qed.

(** Trimming keeps a first character that is not white space. *)
Lemma trim_head x u : isWhiteSpace x = false ->
  exists u', trim (x :: u) = x :: u'.
Proof.
  intros Hx. unfold trim. cbn [trimStart]. rewrite Hx.
  cbn [rev]. rewrite (trimStart_snoc x Hx), rev_app_distr.
  eexists. reflexivity.
Qed.

Lemma trim_blank s : forallb isWhiteSpace s = true -> trim s = [].
Proof.
  intros H. unfold trim.
  assert (E : trimStart s = []).
  { induction s as [|c s IH]; [reflexivity|].
    cbn [forallb] in H. apply andb_true_iff in H. destruct H as [Hc Hs].
    cbn [trimStart]. rewrite Hc. now apply IH. }
  rewrite E. reflexivity.
Qed.

Lemma parseUnsignedDecimal_sign neg u :
  parseUnsignedDecimal neg u = NaN \/
  exists m e, parseUnsignedDecimal neg u = Decimal neg m e.
Proof.
  unfold parseUnsignedDecimal.
  destruct (readDigits 10 u) as [ip r1].
  destruct (match r1 with
            | [] => ([], r1)
            | c :: r => if (c =? 46)%N then readDigits 10 r else ([], r1)
            end) as [fp r2].
  destruct (ip ++ fp); [now left|].
  destruct (parseExponent r2); [right; eauto|now left].
Qed.

Lemma minus_rejected u : accepted (45%N :: u) = false.
Proof.
  unfold accepted, ToNumber.
  destruct (trim_head 45%N u eq_refl) as [u' ->].
  assert (E : parseNonDecimal (45%N :: u') = None).
  { unfold parseNonDecimal. destruct u' as [|p ds]; [reflexivity|].
    destruct (if ((p =? 120) || (p =? 88))%N then Some 16%N
              else if ((p =? 111) || (p =? 79))%N then Some 8%N
              else if ((p =? 98) || (p =? 66))%N then Some 2%N else None);
      [|reflexivity].
    destruct (readDigits n ds) as [[|v vs] [|x rest]]; reflexivity. }
  rewrite E. cbn [readSign N.eqb Pos.eqb].
  destruct (eqb u' (lit "Infinity")); [reflexivity|].
  destruct (parseUnsignedDecimal_sign true u') as [->|(m & e & ->)];
    reflexivity.
Qed.

Lemma blank_rejected s : forallb isWhiteSpace s = true -> accepted s = false.
Proof.
  intros H. unfold accepted, ToNumber. now rewrite (trim_blank s H).
Qed.

Lemma stripped_app b c : length c = 4%nat -> stripped (b ++ c) = b.
Proof. intros H. unfold stripped. now apply slice_strip_app. Qed.

End Rejections.

(** X10. [createDynamicQRIS] never accepts an amount written with a minus
    sign: whatever follows the sign, base data of at least ten characters
    gets the invalid-amount error. *)
Theorem negative_amount_rejected t u :
  (10 <= length t)%nat ->
  createDynamicQRIS t (45%N :: u) = Err InvalidAmount.
Proof.
  intros Hlen. apply (amount_error_iff t _ Hlen), minus_rejected.
Qed.

Lemma negative_amount_rejected_witness :
  (10 <= length example_template)%nat /\
  createDynamicQRIS example_template (45%N :: lit "15000") = Err InvalidAmount.
Proof.
  assert (H : (10 <= length example_template)%nat) by (vm_compute; lia).
  split; [exact H|].
  exact (negative_amount_rejected example_template (lit "15000") H).
Defined.

(** X11. An amount that is empty or made of white space only converts to
    zero, and [createDynamicQRIS] rejects it with the invalid-amount error
    on base data of at least ten characters. *)
Theorem blank_amount_rejected t s :
  (10 <= length t)%nat -> forallb isWhiteSpace s = true ->
  createDynamicQRIS t s = Err InvalidAmount.
Proof.
  intros Hlen Hs. apply (amount_error_iff t _ Hlen), blank_rejected, Hs.
Qed.

Lemma blank_amount_rejected_witness :
  (10 <= length example_template)%nat /\
  forallb isWhiteSpace (lit "  ") = true /\
  createDynamicQRIS example_template (lit "  ") = Err InvalidAmount.
Proof.
  assert (H : (10 <= length example_template)%nat) by (vm_compute; lia).
  assert (H2 : forallb isWhiteSpace (lit "  ") = true) by (vm_compute; reflexivity).
  split; [exact H|]. split; [exact H2|].
  exact (blank_amount_rejected example_template (lit "  ") H H2).
Defined.

(** X12. Neither composer reads the last four characters of the base data:
    two templates that differ only there give the same result, so the
    checksum a template arrives with is never verified. *)
Theorem old_checksum_ignored b c c' a :
  length c = 4%nat -> length c' = 4%nat ->
  createDynamicQRIS (b ++ c) a = createDynamicQRIS (b ++ c') a /\
  createQRIS a (b ++ c) = createQRIS a (b ++ c').
Proof.
  intros Hc Hc'. split.
  - rewrite !createDynamicQRIS_unfold. unfold processed.
    rewrite !length_app, Hc, Hc', (stripped_app b c Hc), (stripped_app b c' Hc').
    reflexivity.
  - rewrite !createQRIS_unfold. unfold processed.
    rewrite (stripped_app b c Hc), (stripped_app b c' Hc'). reflexivity.
Qed.

Lemma old_checksum_ignored_witness :
  length (lit "ABCD") = 4%nat /\ length (lit "0000") = 4%nat /\
  createDynamicQRIS (lit "00020101021126570011ID.DANA.WWW5802ID5303360" ++ lit "ABCD")
    example_amount
  = createDynamicQRIS (lit "00020101021126570011ID.DANA.WWW5802ID5303360" ++ lit "0000")
      example_amount.
Proof.
  split; [reflexivity|]. split; [reflexivity|].
  exact (proj1 (old_checksum_ignored
                  (lit "00020101021126570011ID.DANA.WWW5802ID5303360")
                  (lit "ABCD") (lit "0000") example_amount eq_refl eq_refl)).
Defined.
